(** * V2Drum: pressure quantiser and hit/release state machine

    A shallow embedding of [V2Drum::loop], [V2Drum::measure],
    [V2Drum::sendPressure] and [V2Drum::reset] (src/V2Drum.h; V2FSR.h is
    the same machine over [micros()]).

    Conventions of the embedding.
    - [uint8_t], [uint16_t], [uint32_t] values are integers of [Z] kept in
      range by an explicit reduction modulo 2^8, 2^16, 2^32.
    - [float] is an interface, [FloatOps]: the machine is written once
      over it, the way the C++ text is written over [float].  Two
      instances are given: IEEE binary32 (round to nearest even, built on
      the Standard Library's [SpecFloat]) to run the code on concrete
      inputs, and exact rational arithmetic to reason about ranges.
    - [powf] belongs to libm, not to this repository; it is a parameter.
    - The clock ([V2Base::getUsec()], [micros()]) is read once per call of
      [loop]: the reading is an argument of [loop], and every use of the
      clock within that call sees it.
    - The virtual callbacks are recorded as a list of [Callback] values in
      call order; [handleMeasurement()] is the sample argument of [loop]. *)

From Stdlib Require Import ZArith QArith Qround Qabs Qpower Bool List Lia Lqa.
From Stdlib Require Import SpecFloat.
Import ListNotations.
Local Open Scope Z_scope.

(** ** Machine integers *)

Definition uint8_t (z : Z) : Z := z mod 2 ^ 8.
Definition uint16_t (z : Z) : Z := z mod 2 ^ 16.
Definition uint32_t (z : Z) : Z := z mod 2 ^ 32.

(** [V2Base::getUsecSince(since)], [(unsigned long)(micros() - since)]:
    unsigned 32-bit difference of the clock reading [now] and [since]. *)
Definition getUsecSince (now since : Z) : Z := uint32_t (now - since).

(** ** The [float] interface

    [flt a b] is [a < b] and [fle a b] is [a <= b]; the code's [a > b] and
    [a >= b] are [flt b a] and [fle b a].  [f_of_Z] is the implicit
    conversion of an integer operand, [f_to_Z] the conversion of a float
    to an integer type (truncation toward zero, before the reduction to
    the width of the target type). *)
Class FloatOps (F : Type) : Type := {
  f_of_Z : Z -> F;
  fadd : F -> F -> F;
  fsub : F -> F -> F;
  fmul : F -> F -> F;
  fdiv : F -> F -> F;
  flt : F -> F -> bool;
  fle : F -> F -> bool;
  fabs : F -> F;
  roundf : F -> F;
  ceilf : F -> F;
  f_to_Z : F -> Z
}.

(** ** Data model *)

Module State.
Inductive t : Set := Idle | Rising | Hit | HitHold | HitRelease | Release.

Definition eqb (a b : t) : bool :=
  match a, b with
  | Idle, Idle | Rising, Rising | Hit, Hit | HitHold, HitHold
  | HitRelease, HitRelease | Release, Release => true
  | _, _ => false
  end.
End State.

Module Config.
Record t {F : Type} : Type := mk {
  nSteps : Z;
  alpha : F;
  lag : F;
  pressure_min : F;
  pressure_max : F;
  pressure_exponent : F;
  hit_min : F;
  hit_max : F;
  hit_exponent : F;
  hit_risingUsec : Z;
  hit_holdUsec : Z;
  hit_pressureDelayUsec : Z;
  hit_releaseUsec : Z;
  release_minUsec : F;
  release_maxUsec : F
}.
Arguments t : clear implicits.
Arguments mk {F}.
End Config.

Module Now.
Record t {F : Type} : Type := mk {
  state : State.t;
  usec : Z;
  analog : F;
  fraction : F;
  step : Z
}.
Arguments t : clear implicits.
Arguments mk {F}.
End Now.

Module History.
Record t {F : Type} : Type := mk {
  analog : F;
  lag : F
}.
Arguments t : clear implicits.
Arguments mk {F}.
End History.

Module Pressure.
Record t {F : Type} : Type := mk {
  fraction : F;
  step : Z;
  usec : Z;
  enabled : bool;
  sent : bool;
  rawSent : bool
}.
Arguments t : clear implicits.
Arguments mk {F}.
End Pressure.

Module Rising.
Record t {F : Type} : Type := mk {
  pressure : F;
  usec : Z
}.
Arguments t : clear implicits.
Arguments mk {F}.
End Rising.

Module Hit.
Record t : Type := mk {
  velocity : Z;
  usec : Z;
  holdUsec : Z;
  releaseUsec : Z
}.
End Hit.

Module Falling.
Record t : Type := mk {
  usec : Z;
  step : Z;
  velocity : Z
}.
End Falling.

Record Drum {F : Type} : Type := mkDrum {
  _now : Now.t F;
  _history : History.t F;
  _pressure : Pressure.t F;
  _rising : Rising.t F;
  _hit : Hit.t;
  _falling : Falling.t
}.
Arguments Drum : clear implicits.
Arguments mkDrum {F}.

(** The four virtual callbacks, as the calls the machine makes. *)
Inductive Callback {F : Type} : Type :=
| handlePressureRaw (fraction : F) (step : Z)
| handlePressure (fraction : F) (step : Z)
| handleHit (velocity : Z)
| handleRelease (velocity : Z).
Arguments Callback : clear implicits.

(** ** The machine *)

Section Machine.
Context {F : Type} {FO : FloatOps F}.
Variable powf : F -> F -> F.
Variable config : Config.t F.

(** The value-initialised groups, [= {}]. *)
Definition now0 : Now.t F := Now.mk State.Idle 0 (f_of_Z 0) (f_of_Z 0) 0.
Definition history0 : History.t F := History.mk (f_of_Z 0) (f_of_Z 0).
Definition pressure0 : Pressure.t F :=
  Pressure.mk (f_of_Z 0) 0 0 false false false.
Definition rising0 : Rising.t F := Rising.mk (f_of_Z 0) 0.
Definition hit0 : Hit.t := Hit.mk 0 0 0 0.
Definition falling0 : Falling.t := Falling.mk 0 0 0.

(** [reset()]: the state it leaves, which is also the constructed state. *)
Definition reset : Drum F :=
  mkDrum now0 history0 pressure0 rising0 hit0 falling0.

(** Field updates. *)
Definition set_state (st : State.t) (s : Drum F) : Drum F :=
  let n := s.(_now) in
  mkDrum (Now.mk st n.(Now.usec) n.(Now.analog) n.(Now.fraction) n.(Now.step))
         s.(_history) s.(_pressure) s.(_rising) s.(_hit) s.(_falling).

Definition set_now_usec (u : Z) (s : Drum F) : Drum F :=
  let n := s.(_now) in
  mkDrum (Now.mk n.(Now.state) u n.(Now.analog) n.(Now.fraction) n.(Now.step))
         s.(_history) s.(_pressure) s.(_rising) s.(_hit) s.(_falling).

Definition set_enabled (s : Drum F) : Drum F :=
  let p := s.(_pressure) in
  mkDrum s.(_now) s.(_history)
         (Pressure.mk p.(Pressure.fraction) p.(Pressure.step) p.(Pressure.usec)
                      true p.(Pressure.sent) p.(Pressure.rawSent))
         s.(_rising) s.(_hit) s.(_falling).

Definition set_rising (r : Rising.t F) (s : Drum F) : Drum F :=
  mkDrum s.(_now) s.(_history) s.(_pressure) r s.(_hit) s.(_falling).

Definition set_hit (h : Hit.t) (s : Drum F) : Drum F :=
  mkDrum s.(_now) s.(_history) s.(_pressure) s.(_rising) h s.(_falling).

Definition set_falling (f : Falling.t) (s : Drum F) : Drum F :=
  mkDrum s.(_now) s.(_history) s.(_pressure) s.(_rising) s.(_hit) f.

(** [measure()]: the low-pass filter, the rails, and the quantiser with
    its lag.  The result of [roundf] is stored in the 16-bit [_now.step]. *)
Definition filtered (sample : F) (s : Drum F) : F :=
  fadd (fmul s.(_history).(History.analog)
             (fsub (f_of_Z 1) config.(Config.alpha)))
       (fmul sample config.(Config.alpha)).

Definition normalized (h : F) : F :=
  powf (fdiv (fsub h config.(Config.pressure_min))
             (fsub config.(Config.pressure_max) config.(Config.pressure_min)))
       config.(Config.pressure_exponent).

Definition quantized (fraction : F) : Z :=
  uint16_t (f_to_Z (roundf (fmul fraction (f_of_Z (config.(Config.nSteps) - 1))))).

Definition measure (sample : F) (s : Drum F) : Drum F :=
  let n := s.(_now) in
  let h := filtered sample s in
  if flt h config.(Config.pressure_min) then
    mkDrum (Now.mk n.(Now.state) n.(Now.usec) sample (f_of_Z 0) 0)
           (History.mk h (fsub (f_of_Z 0) config.(Config.lag)))
           s.(_pressure) s.(_rising) s.(_hit) s.(_falling)
  else if flt config.(Config.pressure_max) h then
    mkDrum (Now.mk n.(Now.state) n.(Now.usec) sample (f_of_Z 1)
                   (uint16_t (config.(Config.nSteps) - 1)))
           (History.mk h (fadd (f_of_Z 1) config.(Config.lag)))
           s.(_pressure) s.(_rising) s.(_hit) s.(_falling)
  else
    let fraction := normalized h in
    let step :=
      if fle config.(Config.lag)
             (fabs (fsub fraction s.(_history).(History.lag)))
      then quantized fraction
      else s.(_pressure).(Pressure.step) in
    mkDrum (Now.mk n.(Now.state) n.(Now.usec) sample fraction step)
           (History.mk h s.(_history).(History.lag))
           s.(_pressure) s.(_rising) s.(_hit) s.(_falling).

(** [sendPressure()].  [handlePressure] is called before
    [handlePressureRaw]; [_pressure.step] is 8 bits wide. *)
Definition sendPressure (now : Z) (s : Drum F) : Drum F * list (Callback F) :=
  let n := s.(_now) in
  let p := s.(_pressure) in
  if p.(Pressure.step) =? n.(Now.step) then (s, [])
  else if getUsecSince now p.(Pressure.usec) <? 20 * 1000 then (s, [])
  else
    let edge :=
      if flt (f_of_Z 0) (fsub n.(Now.fraction) s.(_history).(History.lag))
      then fsub n.(Now.fraction) config.(Config.lag)
      else fadd n.(Now.fraction) config.(Config.lag) in
    let h := History.mk s.(_history).(History.analog) edge in
    let stored (sent rawSent : bool) :=
      Pressure.mk n.(Now.fraction) (uint8_t n.(Now.step)) now
                  p.(Pressure.enabled) sent rawSent in
    if n.(Now.step) =? 0 then
      (mkDrum n h (stored p.(Pressure.sent) p.(Pressure.rawSent))
              s.(_rising) s.(_hit) s.(_falling), [])
    else if p.(Pressure.enabled) then
      (mkDrum n h (stored true true) s.(_rising) s.(_hit) s.(_falling),
       [handlePressure n.(Now.fraction) n.(Now.step);
        handlePressureRaw n.(Now.fraction) n.(Now.step)])
    else
      (mkDrum n h (stored p.(Pressure.sent) true)
              s.(_rising) s.(_hit) s.(_falling),
       [handlePressureRaw n.(Now.fraction) n.(Now.step)]).

(** The [switch (_now.state)] of [loop()], one definition per case. *)
Definition caseIdle (now : Z) (s : Drum F) : Drum F * list (Callback F) :=
  if s.(_now).(Now.step) =? 0 then (s, [])
  else
    (set_state State.Rising
       (set_rising (Rising.mk s.(_rising).(Rising.pressure) now) s), []).

Definition caseRising (now : Z) (s : Drum F) : Drum F * list (Callback F) :=
  if s.(_now).(Now.step) =? 0 then (set_state State.Release s, [])
  else
    let r := s.(_rising) in
    let peak :=
      if flt r.(Rising.pressure) s.(_now).(Now.fraction)
      then s.(_now).(Now.fraction) else r.(Rising.pressure) in
    let s := set_rising (Rising.mk peak r.(Rising.usec)) s in
    if getUsecSince now r.(Rising.usec) <? config.(Config.hit_risingUsec)
    then (s, [])
    else if fle peak config.(Config.hit_min)
    then (set_state State.Release (set_enabled s), [])
    else (set_state State.Hit s, []).

(** The hit velocity computed from the recorded peak; the result of
    [ceilf] is stored in the 8-bit [_hit.velocity]. *)
Definition hitPeak (peak : F) : F :=
  if flt config.(Config.hit_max) peak then config.(Config.hit_max) else peak.

Definition hitFraction (peak : F) : F :=
  powf (fdiv (fsub (hitPeak peak) config.(Config.hit_min))
             (fsub config.(Config.hit_max) config.(Config.hit_min)))
       config.(Config.hit_exponent).

Definition hitCeil (peak : F) : F :=
  ceilf (fmul (hitFraction peak) (f_of_Z (config.(Config.nSteps) - 1))).

Definition hitVelocity (peak : F) : Z := uint8_t (f_to_Z (hitCeil peak)).

Definition caseHit (now : Z) (s : Drum F) : Drum F * list (Callback F) :=
  let r := s.(_rising) in
  let velocity := hitVelocity r.(Rising.pressure) in
  let s := set_rising (Rising.mk (hitPeak r.(Rising.pressure)) r.(Rising.usec)) s in
  let h := s.(_hit) in
  let s := set_hit (Hit.mk velocity now h.(Hit.holdUsec) h.(Hit.releaseUsec)) s in
  (set_state State.HitHold s, [handleHit velocity]).

Definition caseHitHold (now : Z) (s : Drum F) : Drum F * list (Callback F) :=
  let s :=
    if s.(_hit).(Hit.holdUsec) =? 0 then
      let h := s.(_hit) in
      let f := s.(_falling) in
      set_falling (Falling.mk now f.(Falling.step) f.(Falling.velocity))
        (set_hit (Hit.mk h.(Hit.velocity) h.(Hit.usec) now h.(Hit.releaseUsec)) s)
    else s in
  if getUsecSince now s.(_hit).(Hit.holdUsec) <? config.(Config.hit_holdUsec)
  then (s, [])
  else
    let s :=
      if s.(_falling).(Falling.step) <=? s.(_now).(Now.step) then
        set_falling (Falling.mk now s.(_now).(Now.step)
                                s.(_falling).(Falling.velocity)) s
      else s in
    if s.(_now).(Now.step) =? 0
    then (set_state State.HitRelease (set_enabled s), [])
    else if config.(Config.hit_pressureDelayUsec)
              <? getUsecSince now s.(_hit).(Hit.holdUsec)
    then (set_enabled s, [])
    else (s, []).

(** The release velocity computed from the fall duration; the float
    result is stored in the 8-bit [_falling.velocity]. *)
Definition releaseDuration (duration : Z) : Z :=
  if flt config.(Config.release_maxUsec) (f_of_Z duration)
  then uint32_t (f_to_Z config.(Config.release_maxUsec))
  else if flt (f_of_Z duration) config.(Config.release_minUsec)
  then uint32_t (f_to_Z config.(Config.release_minUsec))
  else duration.

Definition releaseValue (duration : Z) : F :=
  let range := fsub config.(Config.release_maxUsec)
                    config.(Config.release_minUsec) in
  let fraction :=
    fdiv (fsub (f_of_Z (releaseDuration duration))
               config.(Config.release_minUsec)) range in
  fsub (f_of_Z 127) (fmul fraction (f_of_Z 126)).

Definition releaseVelocity (duration : Z) : Z :=
  uint8_t (f_to_Z (releaseValue duration)).

Definition caseHitRelease (now : Z) (s : Drum F) : Drum F * list (Callback F) :=
  let h := s.(_hit) in
  let f := s.(_falling) in
  let duration := uint32_t (now - f.(Falling.usec)) in
  let velocity := releaseVelocity duration in
  let s := set_hit (Hit.mk h.(Hit.velocity) h.(Hit.usec) h.(Hit.holdUsec) now) s in
  let s := set_falling (Falling.mk f.(Falling.usec) f.(Falling.step) velocity) s in
  (set_state State.Release s, [handleRelease velocity]).

(** The zeros sent at 'Release': one call per flag that is set. *)
Definition terminalZeros (sent rawSent : bool) : list (Callback F) :=
  (if sent then [handlePressure (f_of_Z 0) 0] else [])
  ++ (if rawSent then [handlePressureRaw (f_of_Z 0) 0] else []).

Definition caseRelease (now : Z) (s : Drum F) : Drum F * list (Callback F) :=
  if flt (f_of_Z 0) s.(_now).(Now.fraction) then (s, [])
  else if getUsecSince now s.(_hit).(Hit.releaseUsec)
            <? config.(Config.hit_releaseUsec)
  then (s, [])
  else
    (mkDrum now0 s.(_history) pressure0 rising0 hit0 s.(_falling),
     terminalZeros s.(_pressure).(Pressure.sent)
                   s.(_pressure).(Pressure.rawSent)).

Definition dispatch (now : Z) (s : Drum F) : Drum F * list (Callback F) :=
  match s.(_now).(Now.state) with
  | State.Idle => caseIdle now s
  | State.Rising => caseRising now s
  | State.Hit => caseHit now s
  | State.HitHold => caseHitHold now s
  | State.HitRelease => caseHitRelease now s
  | State.Release => caseRelease now s
  end.

(** [loop()] with the clock reading [now] and the sample [sample]. *)
Definition throttled (now : Z) (s : Drum F) : bool :=
  getUsecSince now s.(_now).(Now.usec) <? 500.

Definition measured (now : Z) (sample : F) (s : Drum F) : Drum F :=
  measure sample (set_now_usec now s).

Definition loop (s : Drum F) (now : Z) (sample : F)
  : Drum F * list (Callback F) :=
  if throttled now s then (s, [])
  else
    let '(s1, sent) := sendPressure now (measured now sample s) in
    let '(s2, emitted) := dispatch now s1 in
    (s2, sent ++ emitted).

(** [getFraction()] and [getStep()]. *)
Definition getFraction (s : Drum F) : F := s.(_pressure).(Pressure.fraction).
Definition getStep (s : Drum F) : Z := s.(_pressure).(Pressure.step).

End Machine.

Arguments reset {F FO}.
Arguments terminalZeros {F FO} sent rawSent.
Arguments getFraction {F} s.
Arguments getStep {F} s.

(** ** Executions

    A list of [(clock reading, sample)] pairs drives successive calls of
    [loop]; [run] returns, per call, the state it leaves and the callbacks
    it made. *)

Section Executions.
Context {F : Type} {FO : FloatOps F}.
Variable powf : F -> F -> F.
Variable config : Config.t F.

Fixpoint run (s : Drum F) (inputs : list (Z * F))
  : list (Drum F * list (Callback F)) :=
  match inputs with
  | [] => []
  | (now, sample) :: rest =>
      let r := loop powf config s now sample in
      r :: run (fst r) rest
  end.

Definition final (s : Drum F) (inputs : list (Z * F)) : Drum F :=
  last (map fst (run s inputs)) s.

Definition calls (s : Drum F) (inputs : list (Z * F)) : list (Callback F) :=
  concat (map snd (run s inputs)).

Definition states (s : Drum F) (inputs : list (Z * F)) : list State.t :=
  map (fun r => (fst r).(_now).(Now.state)) (run s inputs).

(** The states the component can be in: the constructed state, and what
    [loop] and [reset()] make of a reachable state. *)
Inductive reachable : Drum F -> Prop :=
| reachable_reset : reachable reset
| reachable_loop s now sample :
    reachable s -> reachable (fst (loop powf config s now sample)).

End Executions.

(** ** IEEE binary32 *)

Module B32.
Definition prec : Z := 24.
Definition emax : Z := 128.

Definition of_Z (z : Z) : spec_float := binary_normalize prec emax z 0 false.

(** The float nearest to [n / d]: how a decimal literal such as [0.1f]
    is obtained, [ratio 1 10]. *)
Definition ratio (n d : Z) : spec_float := SFdiv prec emax (of_Z n) (of_Z d).

(** Integer part, toward zero. *)
Definition to_Z (x : spec_float) : Z :=
  match x with
  | S754_finite s m e =>
      let a := if 0 <=? e then Zpos m * 2 ^ e else Zpos m / 2 ^ (- e) in
      if s then - a else a
  | _ => 0
  end.

(** [ceilf]: a finite float with a non-negative exponent is an integer. *)
Definition ceil (x : spec_float) : spec_float :=
  match x with
  | S754_finite s m e =>
      if 0 <=? e then x
      else
        let q := Zpos m / 2 ^ (- e) in
        if s then binary_normalize prec emax (- q) 0 true
        else binary_normalize prec emax
               (if Zpos m mod 2 ^ (- e) =? 0 then q else q + 1) 0 false
  | _ => x
  end.

(** [roundf]: to the nearest integer, halfway cases away from zero. *)
Definition round (x : spec_float) : spec_float :=
  match x with
  | S754_finite s m e =>
      if 0 <=? e then x
      else
        let q := (Zpos m + 2 ^ (- e - 1)) / 2 ^ (- e) in
        binary_normalize prec emax (if s then - q else q) 0 s
  | _ => x
  end.

(** [powf] on integral exponents: for [k >= 0] the exact power rounded
    once; for [k < 0] the quotient [1 / x^(-k)], which is the correctly
    rounded power whenever [x^(-k)] is exact.  Other exponents are not
    modelled (nan). *)
Definition pow_pos (x : spec_float) (k : positive) : spec_float :=
  match x with
  | S754_finite s m e =>
      binary_normalize prec emax
        (if s && Z.odd (Zpos k) then Zneg (Pos.pow m k) else Zpos (Pos.pow m k))
        (e * Zpos k) false
  | S754_zero s => S754_zero (s && Z.odd (Zpos k))
  | S754_infinity s => S754_infinity (s && Z.odd (Zpos k))
  | S754_nan => S754_nan
  end.

Definition integral (y : spec_float) : option Z :=
  match y with
  | S754_zero _ => Some 0
  | S754_finite s m e =>
      if 0 <=? e then Some (to_Z y)
      else if Zpos m mod 2 ^ (- e) =? 0 then Some (to_Z y) else None
  | _ => None
  end.

Definition powf (x y : spec_float) : spec_float :=
  match integral y with
  | Some 0 => of_Z 1
  | Some (Zpos k) => pow_pos x k
  | Some (Zneg k) => SFdiv prec emax (of_Z 1) (pow_pos x k)
  | None => S754_nan
  end.

#[global] Instance ops : FloatOps spec_float := {
  f_of_Z := of_Z;
  fadd := SFadd prec emax;
  fsub := SFsub prec emax;
  fmul := SFmul prec emax;
  fdiv := SFdiv prec emax;
  flt := SFltb;
  fle := SFleb;
  fabs := SFabs;
  roundf := round;
  ceilf := ceil;
  f_to_Z := to_Z
}.
End B32.

(** ** Exact rational arithmetic *)

Module Exact.
Definition ltb (a b : Q) : bool :=
  match Qcompare a b with Lt => true | _ => false end.

Definition leb (a b : Q) : bool :=
  match Qcompare a b with Gt => false | _ => true end.

(** Integer part, toward zero. *)
Definition to_Z (x : Q) : Z := Z.quot (Qnum x) (Zpos (Qden x)).

Definition ceil (x : Q) : Q := inject_Z (Qceiling x).

(** To the nearest integer, halfway cases away from zero. *)
Definition round (x : Q) : Q :=
  inject_Z (if Qle_bool (inject_Z 0) x then Qfloor (Qplus x (1 # 2))
            else Qceiling (Qminus x (1 # 2))).

(** [powf] on integral exponents, where the power is rational; on other
    exponents it is the power at the integer part, which is not [powf]
    and which nothing below relies on. *)
Definition powf (x y : Q) : Q := Qpower x (Qfloor y).

#[global] Instance ops : FloatOps Q := {
  f_of_Z := inject_Z;
  fadd := Qplus;
  fsub := Qminus;
  fmul := Qmult;
  fdiv := Qdiv;
  flt := ltb;
  fle := leb;
  fabs := Qabs;
  roundf := round;
  ceilf := ceil;
  f_to_Z := to_Z
}.
End Exact.

(** ** Callback classification *)

Section Calls.
Context {F : Type}.

Definition isPressure (c : Callback F) : bool :=
  match c with handlePressure _ _ => true | _ => false end.

Definition isPressureRaw (c : Callback F) : bool :=
  match c with handlePressureRaw _ _ => true | _ => false end.

Definition isHit (c : Callback F) : bool :=
  match c with handleHit _ => true | _ => false end.

Definition isRelease (c : Callback F) : bool :=
  match c with handleRelease _ => true | _ => false end.

(** A pressure (raw pressure) call with a non-zero step. *)
Definition nonzeroPressure (c : Callback F) : bool :=
  match c with handlePressure _ st => negb (st =? 0) | _ => false end.

Definition nonzeroPressureRaw (c : Callback F) : bool :=
  match c with handlePressureRaw _ st => negb (st =? 0) | _ => false end.

(** The step a raw pressure call reports. *)
Definition reported (c : Callback F) : option Z :=
  match c with handlePressureRaw _ st => Some st | _ => None end.

(** A pressure or raw pressure call with step zero. *)
Definition zeroStep (c : Callback F) : bool :=
  match c with
  | handlePressure _ st | handlePressureRaw _ st => st =? 0
  | _ => false
  end.

End Calls.


Section Outcomes.
Context {F : Type}.

(** What [sendPressure] does: nothing, a silent store of step zero, a raw
    pressure call, or a pressure call followed by a raw pressure call. *)
Inductive sent_outcome (s s' : Drum F) : list (Callback F) -> Prop :=
| sent_nothing :
    s' = s -> sent_outcome s s' []
| sent_zero :
    s.(_now).(Now.step) = 0 ->
    s'.(_pressure).(Pressure.fraction) = s.(_now).(Now.fraction) ->
    s'.(_pressure).(Pressure.step) = 0 ->
    s'.(_pressure).(Pressure.sent) = s.(_pressure).(Pressure.sent) ->
    s'.(_pressure).(Pressure.rawSent) = s.(_pressure).(Pressure.rawSent) ->
    sent_outcome s s' []
| sent_raw :
    s.(_now).(Now.step) <> 0 ->
    s.(_pressure).(Pressure.enabled) = false ->
    s'.(_pressure).(Pressure.fraction) = s.(_now).(Now.fraction) ->
    s'.(_pressure).(Pressure.step) = uint8_t s.(_now).(Now.step) ->
    s'.(_pressure).(Pressure.sent) = s.(_pressure).(Pressure.sent) ->
    s'.(_pressure).(Pressure.rawSent) = true ->
    sent_outcome s s'
      [handlePressureRaw s.(_now).(Now.fraction) s.(_now).(Now.step)]
| sent_both :
    s.(_now).(Now.step) <> 0 ->
    s.(_pressure).(Pressure.enabled) = true ->
    s'.(_pressure).(Pressure.fraction) = s.(_now).(Now.fraction) ->
    s'.(_pressure).(Pressure.step) = uint8_t s.(_now).(Now.step) ->
    s'.(_pressure).(Pressure.sent) = true ->
    s'.(_pressure).(Pressure.rawSent) = true ->
    sent_outcome s s'
      [handlePressure s.(_now).(Now.fraction) s.(_now).(Now.step);
       handlePressureRaw s.(_now).(Now.fraction) s.(_now).(Now.step)].

End Outcomes.

(** ** Cycles

    [cycle l] is the part of an execution up to and including the first
    call of [loop] that leaves the machine in [Idle]: started in [Idle],
    it is one cycle of the machine, complete when its last state is
    [Idle]. *)

Section Cycles.
Context {F : Type}.

Definition isIdle (s : Drum F) : bool :=
  State.eqb s.(_now).(Now.state) State.Idle.

Fixpoint cycle (l : list (Drum F * list (Callback F)))
  : list (Drum F * list (Callback F)) :=
  match l with
  | [] => []
  | r :: rest => if isIdle (fst r) then [r] else r :: cycle rest
  end.

Definition callsOf (l : list (Drum F * list (Callback F)))
  : list (Callback F) :=
  concat (map snd l).

(** The states before the hit is decided: no confirmed pressure yet. *)
Definition early (st : State.t) : bool :=
  match st with
  | State.Idle | State.Rising | State.Hit => true
  | _ => false
  end.

(** Some [handlePressure] call is followed, later in the list, by a
    [handleHit] call (respectively [handlePressureRaw]). *)
Fixpoint hitAfterPressure (l : list (Callback F)) : bool :=
  match l with
  | [] => false
  | c :: rest => (isPressure c && existsb isHit rest) || hitAfterPressure rest
  end.

Fixpoint hitAfterPressureRaw (l : list (Callback F)) : bool :=
  match l with
  | [] => false
  | c :: rest =>
      (isPressureRaw c && existsb isHit rest) || hitAfterPressureRaw rest
  end.

End Cycles.

(** The peak the Rising state records over the calls [inputs] made from
    [s]: a call that is not throttled replaces the peak by the fraction it
    measured when that fraction is greater. *)
Section Peak.
Context {F : Type} {FO : FloatOps F}.
Variable powf : F -> F -> F.
Variable config : Config.t F.

Definition greater (peak fraction : F) : F :=
  if flt peak fraction then fraction else peak.

Fixpoint risingPeak (s : Drum F) (inputs : list (Z * F)) (peak : F) : F :=
  match inputs with
  | [] => peak
  | (now, sample) :: rest =>
      risingPeak (fst (loop powf config s now sample)) rest
        (if throttled now s then peak
         else greater peak
                (measured powf config now sample s).(_now).(Now.fraction))
  end.

End Peak.

(** The reading from which the fall of a hit is timed, over the calls
    [inputs] made from [s] while the hit is held.  [fallStep] is what
    one call that is not throttled makes of [(hold, since, top)] at the
    reading [now] when it measures the step [st]: [hold] is the reading
    at which the hold began (0 before it has), [since] the reading the
    fall is timed from, and [top] the step it is timed from.  The first
    call sets [hold] and [since]; once [hit.holdUsec] has elapsed since
    [hold], every call that measures a step not below [top] sets [since]
    and [top].  [fallOf] is what the machine holds of the three. *)
Section Fall.
Context {F : Type} {FO : FloatOps F}.
Variable powf : F -> F -> F.
Variable config : Config.t F.

Definition fallStep (now st : Z) (a : Z * Z * Z) : Z * Z * Z :=
  let '(hold, since, top) := a in
  let hold' := if hold =? 0 then now else hold in
  let since' := if hold =? 0 then now else since in
  if getUsecSince now hold' <? config.(Config.hit_holdUsec)
  then (hold', since', top)
  else if top <=? st then (hold', now, st) else (hold', since', top).

Fixpoint fallOver (s : Drum F) (inputs : list (Z * F)) (a : Z * Z * Z)
  : Z * Z * Z :=
  match inputs with
  | [] => a
  | (now, sample) :: rest =>
      fallOver (fst (loop powf config s now sample)) rest
        (if throttled now s then a
         else fallStep now
                (measured powf config now sample s).(_now).(Now.step) a)
  end.

Definition fallOf (s : Drum F) : Z * Z * Z :=
  (s.(_hit).(Hit.holdUsec), s.(_falling).(Falling.usec),
   s.(_falling).(Falling.step)).

(** Before the hit the hold has not begun. *)
Definition unheld (s : Drum F) : Prop :=
  early s.(_now).(Now.state) = true -> s.(_hit).(Hit.holdUsec) = 0.

End Fall.

(** ** State predicates *)

Section Predicates.
Context {F : Type} {FO : FloatOps F}.

(** In [Idle] nothing of a previous cycle is left in [_pressure],
    [_rising] and [_hit]. *)
Definition idleClean (s : Drum F) : Prop :=
  s.(_now).(Now.state) = State.Idle ->
  s.(_pressure) = pressure0 /\ s.(_rising) = rising0 /\ s.(_hit) = hit0.

(** Before the hit is decided, confirmed pressure is not enabled. *)
Definition gated (s : Drum F) : Prop :=
  early s.(_now).(Now.state) = true ->
  s.(_pressure).(Pressure.enabled) = false.

(** The measured and the stored step are steps of the configuration. *)
Definition stepsInRange (config : Config.t F) (s : Drum F) : Prop :=
  0 <= s.(_now).(Now.step) <= config.(Config.nSteps) - 1
  /\ 0 <= s.(_pressure).(Pressure.step) <= config.(Config.nSteps) - 1.

(** In [Hit] the recorded peak is above [hit.min]. *)
Definition hitArmed (config : Config.t F) (s : Drum F) : Prop :=
  s.(_now).(Now.state) = State.Hit ->
  fle s.(_rising).(Rising.pressure) config.(Config.hit_min) = false.

(** The state [loop] was called in for the last entry of [c0 ++ [_]],
    in an execution from [s]. *)
Definition stateBefore (s : Drum F) (c0 : list (Drum F * list (Callback F)))
  : State.t :=
  last (map (fun r => (fst r).(_now).(Now.state)) c0) s.(_now).(Now.state).

End Predicates.

(** ** A concrete configuration and execution

    128 steps, no smoothing ([alpha = 1]), lag 1/64, pressure range
    [0, 1] and hit range [0.1, 0.9] with linear curves, a rising window of
    2 ms, 10 ms hold, 50 ms pressure delay, 5 ms release settle time, and
    release durations from 5 ms to 50 ms; in binary32 and in exact
    arithmetic. *)

Module Demo.

Definition config : Config.t spec_float :=
  Config.mk 128 (B32.of_Z 1) (B32.ratio 1 64)
    (B32.of_Z 0) (B32.of_Z 1) (B32.of_Z 1)
    (B32.ratio 1 10) (B32.ratio 9 10) (B32.of_Z 1)
    2000 10000 50000 5000
    (B32.of_Z 5000) (B32.of_Z 50000).

Definition configQ : Config.t Q :=
  Config.mk 128 (inject_Z 1) (1 # 64)
    (inject_Z 0) (inject_Z 1) (inject_Z 1)
    (1 # 10) (9 # 10) (inject_Z 1)
    2000 10000 50000 5000
    (inject_Z 5000) (inject_Z 50000).

(** A strike to 0.5 that is held, pressed on to 0.75, eased to 0.25 and
    let go; the fall, from the last rise at 160 ms to the release at
    187.5 ms, lasts 27500 microseconds. *)
Definition strike : list (Z * (Z * Z)) :=
  [ (100000, (1, 2)); (101000, (1, 2)); (102000, (1, 2)); (103000, (1, 2));
    (104000, (1, 2)); (114000, (1, 2)); (160000, (3, 4)); (180000, (1, 4));
    (187000, (0, 1)); (187500, (0, 1)); (188500, (0, 1)); (193000, (0, 1)) ].

Definition inputs : list (Z * spec_float) :=
  map (fun i => (fst i, B32.ratio (fst (snd i)) (snd (snd i)))) strike.

Definition inputsQ : list (Z * Q) :=
  map (fun i => (fst i, Qmake (fst (snd i)) (Z.to_pos (snd (snd i))))) strike.

(** The exact configuration with smoothing, [alpha = 1/4], and with a
    pressure range that starts at 1/10. *)
Definition smoothQ : Config.t Q :=
  Config.mk 128 (1 # 4) (1 # 64)
    (1 # 10) (inject_Z 1) (inject_Z 1)
    (1 # 10) (9 # 10) (inject_Z 1)
    2000 10000 50000 5000
    (inject_Z 5000) (inject_Z 50000).

(** Samples below that range. *)
Definition faintQ : list (Z * Q) :=
  [ (1000, Qmake 1 20); (2000, Qmake 9 100); (3000, Qmake 0 1) ].

(** A rise to 1/16, below [hit.min], as the rising window opens. *)
Definition creeping : Drum spec_float :=
  fst (loop B32.powf config reset 100000 (B32.ratio 1 16)).

(** A sample held at 1 over four calls, the second of them throttled. *)
Definition heldQ : list (Z * Q) :=
  [ (1000, Qmake 1 1); (1200, Qmake 1 1); (2000, Qmake 1 1);
    (3000, Qmake 1 1) ].

(** The cycle this execution makes from the constructed state. *)
Definition cyc : list (Drum spec_float * list (Callback spec_float)) :=
  cycle (run B32.powf config reset inputs).

Definition cycQ : list (Drum Q * list (Callback Q)) :=
  cycle (run Exact.powf configQ reset inputsQ).

(** A tap: a rise to 0.5 that is gone 1 ms later, and the cycle it
    makes. *)
Definition tap : list (Z * spec_float) :=
  [ (100000, B32.ratio 1 2); (101000, B32.of_Z 0); (107000, B32.of_Z 0) ].

Definition tapped : list (Drum spec_float * list (Callback spec_float)) :=
  cycle (run B32.powf config reset tap).

(** The rise begins, and a sample of 0 follows 1 ms later; after that
    the pad is pressed again and let go. *)
Definition risen : Drum spec_float :=
  fst (loop B32.powf config reset 100000 (B32.ratio 1 2)).

Definition again : list (Z * spec_float) :=
  [ (102000, B32.ratio 1 2); (104000, B32.ratio 1 2); (106000, B32.of_Z 0);
    (112000, B32.of_Z 0) ].

(** The calls made in [Rising] after the rise began at 100 ms, and the
    state in which the hit is decided. *)
Definition rising : list (Z * spec_float) :=
  [ (101000, B32.ratio 1 2); (102000, B32.ratio 1 2) ].

Definition decided : Drum spec_float :=
  final B32.powf config
    (fst (loop B32.powf config reset 100000 (B32.ratio 1 2))) rising.

Definition decidedQ : Drum Q :=
  final Exact.powf configQ reset (firstn 3 inputsQ).

(** The same configuration with 1024 steps, and a strike to [hit.max]. *)
Definition fine : Config.t spec_float :=
  Config.mk 1024 (B32.of_Z 1) (B32.ratio 1 64)
    (B32.of_Z 0) (B32.of_Z 1) (B32.of_Z 1)
    (B32.ratio 1 10) (B32.ratio 9 10) (B32.of_Z 1)
    2000 10000 50000 5000
    (B32.of_Z 5000) (B32.of_Z 50000).

Definition decidedFine : Drum spec_float :=
  final B32.powf fine reset
    [ (100000, B32.ratio 9 10); (101000, B32.ratio 9 10);
      (102000, B32.ratio 9 10) ].

(** The state in which the release of [strike] is reported, in exact
    arithmetic; the fall began at 160 ms. *)
Definition releasingQ : Drum Q :=
  final Exact.powf configQ reset (firstn 9 inputsQ).

(** The same strike let go sooner: the fall, from 160 ms to 166 ms, lasts
    6000 microseconds. *)
Definition quick : list (Z * spec_float) :=
  firstn 7 inputs ++ [ (165000, B32.of_Z 0); (166000, B32.of_Z 0) ].

(** The configuration with the pressure curve exponent -1. *)
Definition inverse : Config.t spec_float :=
  Config.mk 128 (B32.of_Z 1) (B32.ratio 1 64)
    (B32.of_Z 0) (B32.of_Z 1) (B32.of_Z (-1))
    (B32.ratio 1 10) (B32.ratio 9 10) (B32.of_Z 1)
    2000 10000 50000 5000
    (B32.of_Z 5000) (B32.of_Z 50000).

(** A hit range [0.5, 1] with curve exponent 7, and a strike whose peak,
    0.5 + 2^-24, is the float next above [hit.min]. *)
Definition steep : Config.t spec_float :=
  Config.mk 128 (B32.of_Z 1) (B32.ratio 1 64)
    (B32.of_Z 0) (B32.of_Z 1) (B32.of_Z 1)
    (B32.ratio 1 2) (B32.of_Z 1) (B32.of_Z 7)
    2000 10000 50000 5000
    (B32.of_Z 5000) (B32.of_Z 50000).

Definition graze : list (Z * spec_float) :=
  map (fun now => (now, B32.ratio 8388609 16777216))
      [100000; 101000; 102000; 103000].

(** 257 steps, and a strike to [hit.max]. *)
Definition wide : Config.t spec_float :=
  Config.mk 257 (B32.of_Z 1) (B32.ratio 1 64)
    (B32.of_Z 0) (B32.of_Z 1) (B32.of_Z 1)
    (B32.ratio 1 10) (B32.ratio 9 10) (B32.of_Z 1)
    2000 10000 50000 5000
    (B32.of_Z 5000) (B32.of_Z 50000).

Definition full : list (Z * spec_float) :=
  map (fun now => (now, B32.ratio 9 10)) [100000; 101000; 102000; 103000].

(** A rise to 0.5 that is reported, then a sample of 1/1024, 30 ms
    later. *)
Definition dropped : list (Z * spec_float) :=
  [ (100000, B32.ratio 1 2); (130000, B32.ratio 1 1024) ].

(** The same rise, and the sample of 1/1024 only 10 ms later. *)
Definition dropping : list (Z * spec_float) :=
  [ (100000, B32.ratio 1 2); (110000, B32.ratio 1 1024) ].

(** A rise to 0.5, a sample of 2 that is not reported, a rise to
    131/256 and a fall back to 0.5, in exact arithmetic. *)
Definition pinned : list (Z * Q) :=
  [ (100000, Qmake 1 2); (105000, Qmake 2 1); (130000, Qmake 131 256);
    (160000, Qmake 1 2) ].

(** The configuration with lag [0.01f], and a rise to 3/64 followed by a
    fall to [3/64 - 2 * 0.01f + 2^-29]. *)
Definition centi : Config.t spec_float :=
  Config.mk 128 (B32.of_Z 1) (B32.ratio 1 100)
    (B32.of_Z 0) (B32.of_Z 1) (B32.of_Z 1)
    (B32.ratio 1 10) (B32.ratio 9 10) (B32.of_Z 1)
    2000 10000 50000 5000
    (B32.of_Z 5000) (B32.of_Z 50000).

Definition edgy : list (Z * spec_float) :=
  [ (100000, B32.ratio 3 64); (130000, B32.ratio 14428407 536870912) ].

(** The calls of [strike] made while the hit is held, after the call
    at 103 ms that reports the hit. *)
Definition held : list (Z * spec_float) := firstn 5 (skipn 4 inputs).

(** A harder strike, pressed on to 1 where [strike] is pressed on to
    0.75, followed 200 ms later by [strike] itself. *)
Definition hard : list (Z * spec_float) :=
  firstn 6 inputs ++ [ (160000, B32.of_Z 1) ] ++ skipn 7 inputs.

Definition later : list (Z * spec_float) :=
  map (fun i => (fst i + 200000, snd i)) inputs.

(** Release durations from 5 ms to 300 ms. *)
Definition slack : Config.t spec_float :=
  Config.mk 128 (B32.of_Z 1) (B32.ratio 1 64)
    (B32.of_Z 0) (B32.of_Z 1) (B32.of_Z 1)
    (B32.ratio 1 10) (B32.ratio 9 10) (B32.of_Z 1)
    2000 10000 50000 5000
    (B32.of_Z 5000) (B32.of_Z 300000).

Definition slackQ : Config.t Q :=
  Config.mk 128 (inject_Z 1) (1 # 64)
    (inject_Z 0) (inject_Z 1) (inject_Z 1)
    (1 # 10) (9 # 10) (inject_Z 1)
    2000 10000 50000 5000
    (inject_Z 5000) (inject_Z 300000).

End Demo.

(** ** Further vocabulary for executions *)

Section Traces.
Context {F : Type}.

(** The transitions of the [switch] in [loop()]; a state is also kept by
    a call that is throttled. *)
Definition transition (a b : State.t) : bool :=
  match a, b with
  | State.Idle, State.Idle | State.Idle, State.Rising
  | State.Rising, State.Rising | State.Rising, State.Release
  | State.Rising, State.Hit
  | State.Hit, State.Hit | State.Hit, State.HitHold
  | State.HitHold, State.HitHold | State.HitHold, State.HitRelease
  | State.HitRelease, State.HitRelease | State.HitRelease, State.Release
  | State.Release, State.Release | State.Release, State.Idle => true
  | _, _ => false
  end.

(** How many calls of a list satisfy [p]. *)
Definition count (p : Callback F -> bool) (l : list (Callback F)) : Z :=
  Z.of_nat (length (filter p l)).

(** Some call that satisfies [p] is followed, later in the list, by a
    call that satisfies [q]. *)
Fixpoint followedBy (p q : Callback F -> bool) (l : list (Callback F))
  : bool :=
  match l with
  | [] => false
  | c :: rest => (p c && existsb q rest) || followedBy p q rest
  end.

(** Every [handlePressure] call is followed at once by a
    [handlePressureRaw] call with the same arguments. *)
Fixpoint paired (l : list (Callback F)) : Prop :=
  match l with
  | [] => True
  | handlePressure f st :: rest =>
      match rest with
      | handlePressureRaw f' st' :: _ => f = f' /\ st = st' /\ paired rest
      | _ => False
      end
  | _ :: rest => paired rest
  end.

(** The state the machine is in after the calls [c] of an execution
    from [s]. *)
Definition stateAfter (s : Drum F) (c : list (Drum F * list (Callback F)))
  : State.t :=
  last (map (fun r => (fst r).(_now).(Now.state)) c) s.(_now).(Now.state).

End Traces.

(** The numbers [h] of hits and [r] of releases a cycle has called when
    it is in state [st]; the cycle is [settled] with them when it is back
    in [Idle]. *)
Definition phase (st : State.t) (h r : Z) : Prop :=
  match st with
  | State.Idle | State.Rising | State.Hit => h = 0 /\ r = 0
  | State.HitHold | State.HitRelease => h = 1 /\ r = 0
  | State.Release => h = r /\ 0 <= h <= 1
  end.

Definition settled (st : State.t) (h r : Z) : Prop :=
  match st with
  | State.Idle => h = r /\ 0 <= h <= 1
  | _ => phase st h r
  end.

Section Flags.
Context {F : Type}.

(** A confirmed pressure call has been made only if a raw one has. *)
Definition flagsOrdered (s : Drum F) : Prop :=
  s.(_pressure).(Pressure.sent) = true ->
  s.(_pressure).(Pressure.rawSent) = true.

End Flags.

(** ** Report times

    [reports s inputs] lists the clock readings of the calls of an
    execution that report a step (make a raw pressure call with a step
    that is not zero); [apart d l] says that successive numbers of [l]
    are at least [d] apart, [clockOrdered t inputs] that the clock
    readings of [inputs] start at [t] or later, never go back, and do
    not wrap. *)

Section Reports.
Context {F : Type} {FO : FloatOps F}.
Variable powf : F -> F -> F.
Variable config : Config.t F.

Fixpoint reports (s : Drum F) (inputs : list (Z * F)) : list Z :=
  match inputs with
  | [] => []
  | (now, sample) :: rest =>
      let r := loop powf config s now sample in
      (if existsb nonzeroPressureRaw (snd r) then [now] else [])
      ++ reports (fst r) rest
  end.

End Reports.

Fixpoint apart (d : Z) (l : list Z) : Prop :=
  match l with
  | a :: rest =>
      match rest with
      | b :: _ => a + d <= b /\ apart d rest
      | [] => True
      end
  | [] => True
  end.

Fixpoint clockOrdered {F : Type} (t : Z) (inputs : list (Z * F)) : Prop :=
  match inputs with
  | [] => True
  | (now, _) :: rest => t <= now < 2 ^ 32 /\ clockOrdered now rest
  end.

(** ** Predicates of exact arithmetic *)

Section ExactPredicates.
Local Open Scope Q_scope.

(** The arguments of a pressure or raw pressure call are a fraction of
    the unit interval and a step below [nSteps]. *)
Definition argumentsInRange (config : Config.t Q) (c : Callback Q) : Prop :=
  match c with
  | handlePressure f st | handlePressureRaw f st =>
      0 <= f <= 1 /\ (0 <= st <= config.(Config.nSteps) - 1)%Z
  | _ => True
  end.

(** The measured fraction is in the unit interval, and the steps are
    steps of the configuration. *)
Definition measurementInRange (config : Config.t Q) (s : Drum Q) : Prop :=
  0 <= s.(_now).(Now.fraction) <= 1 /\ stepsInRange config s.

(** Nothing is pressed and nothing is stored: the machine is in [Idle],
    the stored step is 0, and the filter is below [pressure.min]. *)
Definition quiet (config : Config.t Q) (s : Drum Q) : Prop :=
  s.(_now).(Now.state) = State.Idle
  /\ s.(_pressure).(Pressure.step) = 0%Z
  /\ s.(_history).(History.analog) < config.(Config.pressure_min).

End ExactPredicates.

(** ** Timed decisions

    In [Hit] the rising window had elapsed, and in [HitRelease] the hold
    time had elapsed and the step was 0, at the reading of the last call
    that was not throttled. *)

Section Timed.
Context {F : Type}.

Definition timed (config : Config.t F) (s : Drum F) : Prop :=
  match s.(_now).(Now.state) with
  | State.Hit =>
      config.(Config.hit_risingUsec)
      <= getUsecSince s.(_now).(Now.usec) s.(_rising).(Rising.usec)
  | State.HitRelease =>
      config.(Config.hit_holdUsec)
      <= getUsecSince s.(_now).(Now.usec) s.(_hit).(Hit.holdUsec)
      /\ s.(_now).(Now.step) = 0
  | _ => True
  end.

End Timed.

(** The number of calls of an execution that are not throttled. *)
Section Processed.
Context {F : Type} {FO : FloatOps F}.
Variable powf : F -> F -> F.
Variable config : Config.t F.

Fixpoint processed (s : Drum F) (inputs : list (Z * F)) : nat :=
  match inputs with
  | [] => O
  | (now, sample) :: rest =>
      ((if throttled now s then 0 else 1)
       + processed (fst (loop powf config s now sample)) rest)%nat
  end.

End Processed.

(** * Properties *)

(** ** One call of [loop], by parts *)

Section Frames.
Context {F : Type} {FO : FloatOps F}.
Variable powf : F -> F -> F.
Variable config : Config.t F.

Lemma existsb_weaken {A : Type} (p q : A -> bool) (l : list A) :
  (forall x, q x = true -> p x = true) ->
  existsb p l = false -> existsb q l = false.
Proof.
  intros Hpq. induction l as [|x l IH]; simpl; [auto|].
  intros H. apply orb_false_elim in H. destruct H as [Hx Hl].
  rewrite (IH Hl), orb_false_r.
  destruct (q x) eqn:Hq; [|reflexivity].
  rewrite (Hpq x Hq) in Hx. discriminate.
Qed.

Lemma measure_frame sample (s : Drum F) :
  let m := measure powf config sample s in
  m.(_now).(Now.state) = s.(_now).(Now.state)
  /\ m.(_now).(Now.usec) = s.(_now).(Now.usec)
  /\ m.(_pressure) = s.(_pressure)
  /\ m.(_rising) = s.(_rising)
  /\ m.(_hit) = s.(_hit)
  /\ m.(_falling) = s.(_falling).
Proof.
  unfold measure.
  destruct (flt _ _); [|destruct (flt _ _)]; simpl; auto 10.
Qed.

Lemma measured_frame now sample (s : Drum F) :
  let m := measured powf config now sample s in
  m.(_now).(Now.state) = s.(_now).(Now.state)
  /\ m.(_now).(Now.usec) = now
  /\ m.(_pressure) = s.(_pressure)
  /\ m.(_rising) = s.(_rising)
  /\ m.(_hit) = s.(_hit)
  /\ m.(_falling) = s.(_falling).
Proof.
  unfold measured.
  destruct (measure_frame sample (set_now_usec now s)) as (H1 & H2 & H3 & H4 & H5 & H6).
  simpl in *. auto 10.
Qed.

Lemma sendPressure_frame now (s : Drum F) :
  let r := sendPressure config now s in
  (fst r).(_now) = s.(_now)
  /\ (fst r).(_rising) = s.(_rising)
  /\ (fst r).(_hit) = s.(_hit)
  /\ (fst r).(_falling) = s.(_falling)
  /\ (fst r).(_pressure).(Pressure.enabled) = s.(_pressure).(Pressure.enabled).
Proof.
  unfold sendPressure.
  destruct (_ =? _); [simpl; auto|].
  destruct (_ <? _); [simpl; auto|].
  destruct (_ =? _); [simpl; auto|].
  destruct (Pressure.enabled _); simpl; auto.
Qed.

Lemma sendPressure_outcome now (s : Drum F) :
  sent_outcome s (fst (sendPressure config now s))
               (snd (sendPressure config now s)).
Proof.
  unfold sendPressure.
  destruct (_ =? _); [now apply sent_nothing|].
  destruct (_ <? _); [now apply sent_nothing|].
  destruct (Now.step (_now s) =? 0) eqn:Hz.
  - apply Z.eqb_eq in Hz. apply sent_zero; simpl; auto. now rewrite Hz.
  - apply Z.eqb_neq in Hz.
    destruct (Pressure.enabled (_pressure s)) eqn:He; simpl.
    + apply sent_both; simpl; auto.
    + apply sent_raw; simpl; auto.
Qed.

End Frames.

Section Ticks.
Context {F : Type} {FO : FloatOps F}.
Variable powf : F -> F -> F.
Variable config : Config.t F.

Lemma loop_unfold (s : Drum F) now sample :
  loop powf config s now sample =
  if throttled now s then (s, [])
  else
    let sp := sendPressure config now (measured powf config now sample s) in
    let d := dispatch powf config now (fst sp) in
    (fst d, snd sp ++ snd d).
Proof.
  unfold loop. destruct (throttled now s); [reflexivity|].
  destruct (sendPressure _ _ _) as [s1 e1]; simpl.
  destruct (dispatch _ _ _ _) as [s2 e2]; reflexivity.
Qed.

Lemma loop_throttled (s : Drum F) now sample :
  throttled now s = true -> loop powf config s now sample = (s, []).
Proof. intros H. rewrite loop_unfold, H. reflexivity. Qed.

(** The state in which [dispatch] runs has the state tag of the state
    [loop] started from. *)
Lemma dispatch_state (s : Drum F) now sample :
  (fst (sendPressure config now (measured powf config now sample s)))
    .(_now).(Now.state) = s.(_now).(Now.state).
Proof.
  destruct (sendPressure_frame config now (measured powf config now sample s))
    as (H & _).
  rewrite H. apply (measured_frame powf config now sample s).
Qed.

(** The flags after [sendPressure], from the calls it made. *)
Lemma sendPressure_flags now (s : Drum F) :
  let r := sendPressure config now s in
  (fst r).(_pressure).(Pressure.sent)
    = s.(_pressure).(Pressure.sent) || existsb nonzeroPressure (snd r)
  /\ (fst r).(_pressure).(Pressure.rawSent)
    = s.(_pressure).(Pressure.rawSent) || existsb nonzeroPressureRaw (snd r)
  /\ existsb zeroStep (snd r) = false
  /\ existsb isHit (snd r) = false
  /\ (s.(_pressure).(Pressure.enabled) = false ->
      existsb isPressure (snd r) = false).
Proof.
  simpl. destruct (sendPressure_outcome config now s)
    as [E|Hz Hf Hs H1 H2|Hz He Hf Hs H1 H2|Hz He Hf Hs H1 H2]; simpl.
  - rewrite E, !orb_false_r. auto.
  - rewrite H1, H2, !orb_false_r. auto.
  - apply Z.eqb_neq in Hz. rewrite H1, H2, Hz. simpl.
    rewrite !orb_false_r, orb_true_r. auto.
  - apply Z.eqb_neq in Hz. rewrite H1, H2, Hz. simpl.
    rewrite !orb_true_r. repeat split; auto. congruence.
Qed.

(** [dispatch], by the state it leaves.  While the machine does not
    return to [Idle], [dispatch] makes no pressure call and leaves the
    sent flags alone. *)
Lemma dispatch_busy now (s : Drum F) :
  let d := dispatch powf config now s in
  (fst d).(_now).(Now.state) <> State.Idle ->
  (fst d).(_pressure).(Pressure.sent) = s.(_pressure).(Pressure.sent)
  /\ (fst d).(_pressure).(Pressure.rawSent) = s.(_pressure).(Pressure.rawSent)
  /\ existsb isPressure (snd d) = false
  /\ existsb isPressureRaw (snd d) = false.
Proof.
  unfold dispatch, caseIdle, caseRising, caseHit, caseHitHold,
    caseHitRelease, caseRelease.
  destruct (Now.state (_now s)); simpl;
    repeat match goal with
      | |- context [if ?b then _ else _] => destruct b; simpl
      end; intros H; auto; try (exfalso; apply H; reflexivity).
Qed.

(** A call of [dispatch] that leaves the machine in [Idle] either found
    it there, or is the Release -> Idle transition: it clears [_now],
    [_rising], [_hit] and, after the terminal zeros the flags ask for,
    [_pressure]; [_history] and [_falling] stay. *)
Lemma dispatch_closing now (s : Drum F) :
  let d := dispatch powf config now s in
  (fst d).(_now).(Now.state) = State.Idle ->
  (s.(_now).(Now.state) = State.Idle /\ s.(_now).(Now.step) = 0
   /\ d = (s, []))
  \/ (s.(_now).(Now.state) = State.Release
      /\ fst d = mkDrum now0 s.(_history) pressure0 rising0 hit0 s.(_falling)
      /\ snd d = terminalZeros s.(_pressure).(Pressure.sent)
                               s.(_pressure).(Pressure.rawSent)).
Proof.
  unfold dispatch, caseIdle, caseRising, caseHit, caseHitHold,
    caseHitRelease, caseRelease.
  destruct (Now.state (_now s)) eqn:Hs; simpl;
    repeat match goal with
      | |- context [if ?b then _ else _] => destruct b eqn:?; simpl
      end; intros H; try discriminate; try congruence;
    try (right; now auto).
  all: left; rewrite Z.eqb_eq in *; now auto.
Qed.

(** One call of [loop] that does not leave the machine in [Idle]: the
    sent flags record the non-zero pressure calls, and no call carries
    step zero. *)
Lemma loop_busy (s : Drum F) now sample :
  let r := loop powf config s now sample in
  (fst r).(_now).(Now.state) <> State.Idle ->
  (fst r).(_pressure).(Pressure.sent)
    = s.(_pressure).(Pressure.sent) || existsb nonzeroPressure (snd r)
  /\ (fst r).(_pressure).(Pressure.rawSent)
    = s.(_pressure).(Pressure.rawSent) || existsb nonzeroPressureRaw (snd r)
  /\ existsb zeroStep (snd r) = false.
Proof.
  simpl. rewrite loop_unfold.
  destruct (throttled now s); simpl.
  { intros _. rewrite !orb_false_r. auto. }
  set (m := measured powf config now sample s).
  intros Hbusy.
  destruct (sendPressure_flags now m) as (Hs & Hr & Hz & _ & _).
  destruct (dispatch_busy now (fst (sendPressure config now m)) Hbusy)
    as (Ds & Dr & Dp & Dq).
  destruct (measured_frame powf config now sample s) as (_ & _ & Hp & _).
  fold m in Hp. rewrite Hp in Hs, Hr.
  rewrite Ds, Dr, Hs, Hr, !existsb_app, Hz.
  assert (N1 : existsb nonzeroPressure
                 (snd (dispatch powf config now
                         (fst (sendPressure config now m)))) = false).
  { apply (existsb_weaken isPressure); [|exact Dp].
    intros [] Hx; simpl in *; congruence. }
  assert (N2 : existsb nonzeroPressureRaw
                 (snd (dispatch powf config now
                         (fst (sendPressure config now m)))) = false).
  { apply (existsb_weaken isPressureRaw); [|exact Dq].
    intros [] Hx; simpl in *; congruence. }
  rewrite N1, N2, !orb_false_r. repeat split; auto.
  clear - Dp Dq.
  induction (snd (dispatch powf config now _)) as [|c l IH];
    simpl in *; [reflexivity|].
  apply orb_false_elim in Dp, Dq. destruct Dp, Dq.
  rewrite IH by assumption. destruct c; simpl in *; congruence.
Qed.

(** One call of [loop] that leaves the machine in [Idle]: it found it
    there (and then, with nothing stored in [_pressure], makes no call),
    or it is the Release -> Idle transition. *)
Lemma loop_closing (s : Drum F) now sample :
  let r := loop powf config s now sample in
  (fst r).(_now).(Now.state) = State.Idle ->
  (s.(_now).(Now.state) = State.Idle
   /\ (fst r).(_rising) = s.(_rising)
   /\ (fst r).(_hit) = s.(_hit)
   /\ (s.(_pressure) = pressure0 ->
       snd r = [] /\ (fst r).(_pressure) = pressure0))
  \/ (s.(_now).(Now.state) = State.Release
      /\ throttled now s = false
      /\ let sp := sendPressure config now (measured powf config now sample s) in
         snd r = snd sp ++ terminalZeros (fst sp).(_pressure).(Pressure.sent)
                                         (fst sp).(_pressure).(Pressure.rawSent)
         /\ fst r = mkDrum now0 (fst sp).(_history) pressure0 rising0 hit0
                           s.(_falling)).
Proof.
  simpl. rewrite loop_unfold.
  destruct (throttled now s) eqn:Ht; simpl.
  { intros Hi. left. repeat split; auto. }
  set (m := measured powf config now sample s).
  set (sp := sendPressure config now m).
  intros Hi.
  pose proof (dispatch_state s now sample) as Hst. fold m sp in Hst.
  destruct (measured_frame powf config now sample s)
    as (_ & _ & Mp & Mr & Mh & Mf). fold m in Mp, Mr, Mh, Mf.
  destruct (sendPressure_frame config now m) as (Sn & Sr & Sh & Sf & _).
  fold sp in Sn, Sr, Sh, Sf.
  destruct (dispatch_closing now (fst sp) Hi) as [(Hs & Hz & Hd)|(Hs & Hd & He)].
  - left. rewrite Hd. simpl. rewrite <- Hst.
    split; [assumption|]. split; [congruence|]. split; [congruence|].
    intros Hp. rewrite Sn in Hz. unfold sp, sendPressure.
    rewrite Mp, Hp, Hz. simpl. split; [reflexivity|congruence].
  - right. rewrite <- Hst. repeat split; auto.
    + now rewrite He.
    + rewrite Hd. now rewrite Sf, Mf.
Qed.

End Ticks.

(** ** Invariants of the reachable states *)

Section Invariants.
Context {F : Type} {FO : FloatOps F}.
Variable powf : F -> F -> F.
Variable config : Config.t F.

Lemma isIdle_true (s : Drum F) :
  isIdle s = true <-> s.(_now).(Now.state) = State.Idle.
Proof.
  unfold isIdle. destruct (Now.state (_now s)); simpl; split;
    intros H; congruence.
Qed.

Lemma isIdle_false (s : Drum F) :
  isIdle s = false <-> s.(_now).(Now.state) <> State.Idle.
Proof.
  unfold isIdle. destruct (Now.state (_now s)); simpl; split;
    intros H; congruence.
Qed.

Lemma loop_idleClean (s : Drum F) now sample :
  idleClean s -> idleClean (fst (loop powf config s now sample)).
Proof.
  intros Hs Hi.
  destruct (loop_closing powf config s now sample Hi)
    as [(Hst & Hr & Hh & Hp)|(Hst & _ & _ & Hd)].
  - destruct (Hs Hst) as (P & R & H). rewrite Hr, Hh.
    destruct (Hp P) as (_ & P'). auto.
  - rewrite Hd. simpl. auto.
Qed.

Lemma reachable_idleClean (s : Drum F) :
  reachable powf config s -> idleClean s.
Proof.
  induction 1 as [|s now sample _ IH].
  - intros _. unfold reset. simpl. auto.
  - now apply loop_idleClean.
Qed.

End Invariants.

(** ** The terminal zeros *)

Section TerminalZeros.
Context {F : Type} {FO : FloatOps F}.
Variable powf : F -> F -> F.
Variable config : Config.t F.

Lemma last_cons_default {A : Type} (a d : A) (l : list A) :
  last (a :: l) d = last l a.
Proof.
  revert a d. induction l as [|b l IH]; intros a d; [reflexivity|].
  change (last (a :: b :: l) d) with (last (b :: l) d).
  rewrite IH. symmetry. apply IH.
Qed.

Lemma stateBefore_cons (s : Drum F) r c0 :
  stateBefore s (r :: c0) = stateBefore (fst r) c0.
Proof. unfold stateBefore. simpl map. apply last_cons_default. Qed.

Lemma final_cons (s : Drum F) now sample (rest : list (Z * F)) :
  final powf config s ((now, sample) :: rest)
  = final powf config (fst (loop powf config s now sample)) rest.
Proof. unfold final. simpl map. apply last_cons_default. Qed.

Lemma reachable_final (s : Drum F) (inputs : list (Z * F)) :
  reachable powf config s -> reachable powf config (final powf config s inputs).
Proof.
  revert s. induction inputs as [|[now sample] rest IH]; intros s Hs.
  - exact Hs.
  - rewrite final_cons. apply IH. now apply reachable_loop.
Qed.

(** The cycle from a state whose flags may already be set: the terminal
    zeros answer the flags of that state and the non-zero calls since. *)
Lemma cycle_zeros (inputs : list (Z * F)) :
  forall (s : Drum F) c0 s' e,
    (s.(_now).(Now.state) = State.Idle -> s.(_pressure) = pressure0) ->
    cycle (run powf config s inputs) = c0 ++ [(s', e)] ->
    if isIdle s' then
      (stateBefore s c0 = State.Release \/ e = [])
      /\ (exists e0,
            e = e0 ++ terminalZeros
                        (s.(_pressure).(Pressure.sent)
                         || existsb nonzeroPressure (callsOf c0 ++ e0))
                        (s.(_pressure).(Pressure.rawSent)
                         || existsb nonzeroPressureRaw (callsOf c0 ++ e0))
            /\ existsb zeroStep (callsOf c0 ++ e0) = false)
      /\ s'.(_pressure) = pressure0
    else
      s'.(_pressure).(Pressure.sent)
        = s.(_pressure).(Pressure.sent)
          || existsb nonzeroPressure (callsOf c0 ++ e)
      /\ s'.(_pressure).(Pressure.rawSent)
        = s.(_pressure).(Pressure.rawSent)
          || existsb nonzeroPressureRaw (callsOf c0 ++ e)
      /\ existsb zeroStep (callsOf c0 ++ e) = false.
Proof.
  induction inputs as [|[now sample] rest IH]; intros s c0 s' e Hclean Hc.
  { destruct c0; discriminate. }
  simpl in Hc.
  set (r := loop powf config s now sample) in *.
  destruct (isIdle (fst r)) eqn:Hidle.
  - (* the call that closes the cycle *)
    destruct c0 as [|x c0]; [|destruct c0; discriminate].
    simpl in Hc. injection Hc as Hr. subst r.
    pose proof (loop_closing powf config s now sample) as C.
    rewrite Hr in Hidle, C. simpl in Hidle, C. rewrite Hidle.
    apply isIdle_true in Hidle.
    destruct (C Hidle) as [(Hst & _ & _ & Hp)|(Hst & _ & Hev & Hd)].
    + destruct (Hp (Hclean Hst)) as (E & P).
      rewrite E, P. split; [now right|]. split; [|reflexivity].
      exists []. rewrite (Hclean Hst). simpl. auto.
    + set (m := measured powf config now sample s) in *.
      destruct (sendPressure_flags config now m) as (Fs & Fr & Fz & _).
      destruct (measured_frame powf config now sample s) as (_ & _ & Mp & _).
      fold m in Mp. rewrite Mp in Fs, Fr.
      split; [left; exact Hst|]. split.
      * exists (snd (sendPressure config now m)).
        unfold callsOf. simpl. rewrite Hev, Fs, Fr. auto.
      * rewrite Hd. reflexivity.
  - (* a call within the cycle *)
    apply isIdle_false in Hidle.
    destruct (loop_busy powf config s now sample Hidle) as (Bs & Br & Bz).
    fold r in Bs, Br, Bz.
    destruct c0 as [|x c0].
    + (* the execution ends here *)
      simpl in Hc. injection Hc as Hr Hrest.
      rewrite Hr in Hidle, Bs, Br, Bz. simpl in Hidle, Bs, Br, Bz.
      apply isIdle_false in Hidle. rewrite Hidle.
      unfold callsOf. simpl. auto.
    + simpl in Hc. injection Hc as Hx Hrest. subst x.
      assert (Hclean' : Now.state (_now (fst r)) = State.Idle ->
                        _pressure (fst r) = pressure0) by (intros; contradiction).
      specialize (IH (fst r) c0 s' e Hclean' Hrest).
      rewrite stateBefore_cons.
      assert (Hcalls : forall l, callsOf (r :: c0) ++ l
                                 = snd r ++ callsOf c0 ++ l).
      { intros l. unfold callsOf. simpl. now rewrite app_assoc. }
      rewrite Bs, Br in IH.
      destruct (isIdle s').
      * destruct IH as (H1 & (e0 & H2 & H3) & H4).
        split; [exact H1|]. split; [|exact H4].
        exists e0. rewrite Hcalls, !existsb_app, Bz.
        rewrite !existsb_app, <- !orb_assoc in H2.
        rewrite existsb_app in H3. split; [exact H2| exact H3].
      * destruct IH as (H1 & H2 & H3).
        rewrite Hcalls, !existsb_app, Bz.
        rewrite !existsb_app, <- !orb_assoc in H1, H2.
        rewrite existsb_app in H3. auto.
Qed.

(** C3.  Terminal-zero guarantee.  Take a cycle of the machine: an
    execution from a reachable state in [Idle], up to and including the
    first call of [loop] that leaves it in [Idle] again, and let
    [(s', e)] be its last call, [c0] the calls before it.  While the
    cycle is incomplete ([s'] is not [Idle]) no pressure or raw pressure
    call carries step zero.  When it is complete, the last call was made
    in [Release] (or the machine never left [Idle] and made no call), and
    its callbacks end with [handlePressure(0, 0)] if a non-zero
    [handlePressure] call was made in the cycle, and with nothing in its
    place if none was, followed by [handlePressureRaw(0, 0)] if a
    non-zero [handlePressureRaw] call was made, and by nothing if none
    was; every call before them has a non-zero step, and the state left
    has [_pressure] cleared. *)
Theorem terminal_zero_guarantee (s : Drum F) (inputs : list (Z * F))
    c0 s' e :
  reachable powf config s ->
  s.(_now).(Now.state) = State.Idle ->
  cycle (run powf config s inputs) = c0 ++ [(s', e)] ->
  if isIdle s' then
    (stateBefore s c0 = State.Release \/ e = [])
    /\ (exists e0,
          e = e0
              ++ (if existsb nonzeroPressure (callsOf c0 ++ e0)
                  then [handlePressure (f_of_Z 0) 0] else [])
              ++ (if existsb nonzeroPressureRaw (callsOf c0 ++ e0)
                  then [handlePressureRaw (f_of_Z 0) 0] else [])
          /\ existsb zeroStep (callsOf c0 ++ e0) = false)
    /\ s'.(_pressure) = pressure0
  else existsb zeroStep (callsOf c0 ++ e) = false.
Proof.
  intros Hreach Hidle Hc.
  destruct (reachable_idleClean powf config s Hreach Hidle) as (Hp & _).
  pose proof (cycle_zeros inputs s c0 s' e (fun _ => Hp) Hc) as H.
  rewrite Hp in H. simpl in H. unfold terminalZeros in H.
  destruct (isIdle s'); [exact H|].
  destruct H as (_ & _ & H). exact H.
Qed.

End TerminalZeros.

(** The strike of [Demo.inputs] ends with both zeros; the tap of
    [Demo.tap], which made a raw pressure call and no confirmed one,
    ends with the raw zero alone. *)
Lemma terminal_zero_guarantee_witness :
  ((exists e0,
       snd (last Demo.cyc (reset, []))
       = e0
         ++ (if existsb nonzeroPressure (callsOf (removelast Demo.cyc) ++ e0)
             then [handlePressure (f_of_Z 0) 0] else [])
         ++ (if existsb nonzeroPressureRaw
                  (callsOf (removelast Demo.cyc) ++ e0)
             then [handlePressureRaw (f_of_Z 0) 0] else [])
       /\ existsb zeroStep (callsOf (removelast Demo.cyc) ++ e0) = false)
   /\ snd (last Demo.cyc (reset, []))
      = [handlePressure (f_of_Z 0) 0; handlePressureRaw (f_of_Z 0) 0])
  /\ ((exists e0,
         snd (last Demo.tapped (reset, []))
         = e0
           ++ (if existsb nonzeroPressure
                    (callsOf (removelast Demo.tapped) ++ e0)
               then [handlePressure (f_of_Z 0) 0] else [])
           ++ (if existsb nonzeroPressureRaw
                    (callsOf (removelast Demo.tapped) ++ e0)
               then [handlePressureRaw (f_of_Z 0) 0] else [])
         /\ existsb zeroStep (callsOf (removelast Demo.tapped) ++ e0) = false)
      /\ callsOf (removelast Demo.tapped)
         = [handlePressureRaw (B32.ratio 1 2) 64]
      /\ snd (last Demo.tapped (reset, []))
         = [handlePressureRaw (f_of_Z 0) 0]).
Proof.
  split.
  - assert (Hc : cycle (run B32.powf Demo.config reset Demo.inputs)
                 = removelast Demo.cyc
                   ++ [(fst (last Demo.cyc (reset, [])),
                        snd (last Demo.cyc (reset, [])))])
      by (vm_compute; reflexivity).
    pose proof (terminal_zero_guarantee B32.powf Demo.config reset Demo.inputs
                  _ _ _ (reachable_reset _ _) eq_refl Hc) as H.
    assert (Hi : isIdle (fst (last Demo.cyc (reset, []))) = true)
      by (vm_compute; reflexivity).
    rewrite Hi in H. destruct H as (_ & H & _).
    split; [exact H|]. vm_compute. reflexivity.
  - assert (Hc : cycle (run B32.powf Demo.config reset Demo.tap)
                 = removelast Demo.tapped
                   ++ [(fst (last Demo.tapped (reset, [])),
                        snd (last Demo.tapped (reset, [])))])
      by (vm_compute; reflexivity).
    pose proof (terminal_zero_guarantee B32.powf Demo.config reset Demo.tap
                  _ _ _ (reachable_reset _ _) eq_refl Hc) as H.
    assert (Hi : isIdle (fst (last Demo.tapped (reset, []))) = true)
      by (vm_compute; reflexivity).
    rewrite Hi in H. destruct H as (_ & H & _).
    split; [exact H|]. split; vm_compute; reflexivity.
Defined.

(** ** Pressure calls and the hit *)

Section Ordering.
Context {F : Type} {FO : FloatOps F}.
Variable powf : F -> F -> F.
Variable config : Config.t F.

Lemma hitAfterPressure_app (l1 l2 : list (Callback F)) :
  hitAfterPressure (l1 ++ l2)
  = hitAfterPressure l1
    || (existsb isPressure l1 && existsb isHit l2)
    || hitAfterPressure l2.
Proof.
  induction l1 as [|c l1 IH]; simpl; [reflexivity|].
  rewrite IH, existsb_app.
  destruct (isPressure c), (existsb isHit l1), (existsb isHit l2),
    (hitAfterPressure l1), (existsb isPressure l1), (hitAfterPressure l2);
    reflexivity.
Qed.

Lemma hitAfterPressure_no_hit (l : list (Callback F)) :
  existsb isHit l = false -> hitAfterPressure l = false.
Proof.
  induction l as [|c l IH]; simpl; [reflexivity|].
  intros H. apply orb_false_elim in H. destruct H as [_ H].
  rewrite H, (IH H), andb_false_r. reflexivity.
Qed.

Lemma hitAfterPressure_no_pressure (l : list (Callback F)) :
  existsb isPressure l = false -> hitAfterPressure l = false.
Proof.
  induction l as [|c l IH]; simpl; [reflexivity|].
  intros H. apply orb_false_elim in H. destruct H as [Hc H].
  rewrite Hc, (IH H). reflexivity.
Qed.

(** [handleHit] is called in the state [Hit] only. *)
Lemma dispatch_hit now (s : Drum F) :
  existsb isHit (snd (dispatch powf config now s)) = true ->
  s.(_now).(Now.state) = State.Hit.
Proof.
  unfold dispatch, caseIdle, caseRising, caseHit, caseHitHold,
    caseHitRelease, caseRelease, terminalZeros.
  destruct (Now.state (_now s)); simpl;
    repeat match goal with
      | |- context [if ?b then _ else _] => destruct b; simpl
      end; intros H; try discriminate; reflexivity.
Qed.

(** A state before the hit decision is left by [dispatch] only from such
    a state, with [enabled] as it was. *)
Lemma dispatch_early now (s : Drum F) :
  let d := dispatch powf config now s in
  (fst d).(_now).(Now.state) <> State.Idle ->
  early (fst d).(_now).(Now.state) = true ->
  early s.(_now).(Now.state) = true
  /\ (fst d).(_pressure).(Pressure.enabled)
     = s.(_pressure).(Pressure.enabled).
Proof.
  unfold dispatch, caseIdle, caseRising, caseHit, caseHitHold,
    caseHitRelease, caseRelease.
  destruct (Now.state (_now s)) eqn:Hs; simpl;
    repeat match goal with
      | |- context [if ?b then _ else _] => destruct b; simpl
      end; rewrite ?Hs; simpl; intros Hn He;
    try discriminate; try (exfalso; apply Hn; reflexivity); auto.
Qed.

Lemma loop_hit (s : Drum F) now sample :
  let r := loop powf config s now sample in
  existsb isHit (snd r) = true ->
  s.(_now).(Now.state) = State.Hit
  /\ (s.(_pressure).(Pressure.enabled) = false ->
      existsb isPressure (snd r) = false).
Proof.
  simpl. rewrite loop_unfold.
  destruct (throttled now s); simpl; [discriminate|].
  set (m := measured powf config now sample s).
  destruct (sendPressure_flags config now m) as (_ & _ & _ & Hh & Hp).
  destruct (measured_frame powf config now sample s) as (_ & _ & Mp & _).
  fold m in Mp. rewrite Mp in Hp.
  rewrite existsb_app, Hh. simpl. intros H.
  pose proof (dispatch_hit _ _ H) as Hs.
  pose proof (dispatch_state powf config s now sample) as Hst. fold m in Hst.
  rewrite Hst in Hs. split; [exact Hs|].
  intros He. rewrite existsb_app, (Hp He). simpl.
  apply dispatch_busy.
  unfold dispatch. rewrite Hst, Hs. simpl. discriminate.
Qed.

Lemma loop_gated (s : Drum F) now sample :
  let r := loop powf config s now sample in
  gated s ->
  (fst r).(_now).(Now.state) <> State.Idle ->
  gated (fst r)
  /\ (early (fst r).(_now).(Now.state) = true ->
      early s.(_now).(Now.state) = true
      /\ existsb isPressure (snd r) = false).
Proof.
  simpl. rewrite loop_unfold.
  destruct (throttled now s); simpl; [auto|].
  set (m := measured powf config now sample s).
  set (sp := sendPressure config now m).
  intros Hg Hn.
  pose proof (dispatch_state powf config s now sample) as Hst.
  fold m sp in Hst.
  destruct (measured_frame powf config now sample s) as (_ & _ & Mp & _).
  fold m in Mp.
  destruct (sendPressure_frame config now m) as (_ & _ & _ & _ & Se).
  fold sp in Se. rewrite Mp in Se.
  destruct (sendPressure_flags config now m) as (_ & _ & _ & _ & Hp).
  fold sp in Hp. rewrite Mp in Hp.
  destruct (dispatch_busy powf config now (fst sp) Hn) as (_ & _ & Dp & _).
  assert (Hearly : early (Now.state (_now (fst (dispatch powf config now (fst sp))))) = true ->
                   early (Now.state (_now s)) = true
                   /\ Pressure.enabled (_pressure (fst (dispatch powf config now (fst sp)))) = false
                   /\ existsb isPressure (snd sp ++ snd (dispatch powf config now (fst sp))) = false).
  { intros He.
    destruct (dispatch_early now (fst sp) Hn He) as (Hes & Hen).
    rewrite Hst in Hes. split; [exact Hes|].
    rewrite Hen, Se. split; [exact (Hg Hes)|].
    rewrite existsb_app, (Hp (Hg Hes)), Dp. reflexivity. }
  split.
  - intros He. apply (Hearly He).
  - intros He. destruct (Hearly He) as (H1 & _ & H3). auto.
Qed.

Lemma reachable_gated (s : Drum F) :
  reachable powf config s -> gated s.
Proof.
  induction 1 as [|s now sample Hr IH].
  - intros _. reflexivity.
  - destruct (isIdle (fst (loop powf config s now sample))) eqn:Hi.
    + apply isIdle_true in Hi. intros _.
      pose proof (reachable_idleClean powf config _
                    (reachable_loop powf config s now sample Hr) Hi) as (Hp & _).
      rewrite Hp. reflexivity.
    + apply isIdle_false in Hi.
      apply (loop_gated s now sample IH Hi).
Qed.

(** Within a cycle no [handleHit] call comes after a [handlePressure]
    call, whatever was called before, so long as the machine was gated
    and no [handlePressure] call was made before the hit decision. *)
Lemma cycle_order (inputs : list (Z * F)) :
  forall (s : Drum F) (E : list (Callback F)),
    gated s ->
    hitAfterPressure E = false ->
    (early s.(_now).(Now.state) = true -> existsb isPressure E = false) ->
    hitAfterPressure (E ++ callsOf (cycle (run powf config s inputs))) = false.
Proof.
  induction inputs as [|[now sample] rest IH]; intros s E Hg HE Hearly.
  { simpl. unfold callsOf. simpl. now rewrite app_nil_r. }
  simpl. set (r := loop powf config s now sample).
  assert (Hstep : hitAfterPressure (E ++ snd r) = false).
  { rewrite hitAfterPressure_app, HE. simpl.
    destruct (existsb isHit (snd r)) eqn:Hh.
    - destruct (loop_hit s now sample Hh) as (Hs & Hp).
      rewrite (Hearly ltac:(rewrite Hs; reflexivity)). simpl.
      apply hitAfterPressure_no_pressure. apply Hp. apply Hg.
      rewrite Hs. reflexivity.
    - rewrite andb_false_r. simpl. now apply hitAfterPressure_no_hit. }
  destruct (isIdle (fst r)) eqn:Hi.
  - unfold callsOf. simpl. now rewrite app_nil_r.
  - apply isIdle_false in Hi.
    destruct (loop_gated s now sample Hg Hi) as (Hg' & He').
    fold r in Hg', He'.
    replace (E ++ callsOf (r :: cycle (run powf config (fst r) rest)))
      with ((E ++ snd r) ++ callsOf (cycle (run powf config (fst r) rest)))
      by (unfold callsOf; simpl; now rewrite app_assoc).
    apply IH; [exact Hg'|exact Hstep|].
    intros He. destruct (He' He) as (Hes & Hp).
    now rewrite existsb_app, (Hearly Hes), Hp.
Qed.

End Ordering.

(** C5.  Hit before confirmed pressure.  In a cycle of the machine (an
    execution from a reachable state in [Idle], up to the first return to
    [Idle]) no [handlePressure] call is followed by a [handleHit] call:
    every confirmed-pressure call of the cycle comes after its hit.  Raw
    pressure carries no such order: there is an execution, in binary32
    from the constructed state, whose cycle calls [handlePressureRaw]
    before [handleHit]. *)
Theorem hit_before_confirmed_pressure
    {F : Type} {FO : FloatOps F} (powf : F -> F -> F) (config : Config.t F)
    (s : Drum F) (inputs : list (Z * F)) :
  reachable powf config s ->
  s.(_now).(Now.state) = State.Idle ->
  hitAfterPressure (callsOf (cycle (run powf config s inputs))) = false
  /\ exists inputs',
       hitAfterPressureRaw
         (callsOf (cycle (run B32.powf Demo.config reset inputs'))) = true.
Proof.
  intros Hr Hi. split.
  - apply (cycle_order powf config inputs s []).
    + now apply (reachable_gated powf config).
    + reflexivity.
    + reflexivity.
  - exists Demo.inputs. vm_compute. reflexivity.
Qed.

Lemma hit_before_confirmed_pressure_witness :
  existsb isPressure (callsOf Demo.cyc) = true
  /\ existsb isHit (callsOf Demo.cyc) = true
  /\ hitAfterPressure (callsOf Demo.cyc) = false.
Proof.
  split; [vm_compute; reflexivity|]. split; [vm_compute; reflexivity|].
  exact (proj1 (hit_before_confirmed_pressure B32.powf Demo.config reset
                  Demo.inputs (reachable_reset _ _) eq_refl)).
Defined.

(** ** A rise that falls back *)

Section FastFall.
Context {F : Type} {FO : FloatOps F}.
Variable powf : F -> F -> F.
Variable config : Config.t F.

Lemma rising_drop (s : Drum F) now sample :
  s.(_now).(Now.state) = State.Rising ->
  throttled now s = false ->
  (measured powf config now sample s).(_now).(Now.step) = 0 ->
  let sp := sendPressure config now (measured powf config now sample s) in
  loop powf config s now sample = (set_state State.Release (fst sp), snd sp).
Proof.
  intros Hs Ht Hz. simpl. rewrite loop_unfold, Ht. simpl.
  set (m := measured powf config now sample s) in *.
  pose proof (dispatch_state powf config s now sample) as Hst. fold m in Hst.
  destruct (sendPressure_frame config now m) as (Sn & _).
  unfold dispatch. rewrite Hst, Hs. unfold caseRising.
  rewrite Sn, Hz. simpl. now rewrite app_nil_r.
Qed.

Lemma loop_release (s : Drum F) now sample :
  let r := loop powf config s now sample in
  s.(_now).(Now.state) = State.Release ->
  ((fst r).(_now).(Now.state) = State.Release
   \/ (fst r).(_now).(Now.state) = State.Idle)
  /\ existsb isHit (snd r) = false.
Proof.
  simpl. intros Hs. split.
  - rewrite loop_unfold. destruct (throttled now s); simpl; [now left|].
    pose proof (dispatch_state powf config s now sample) as Hst.
    unfold dispatch. rewrite Hst, Hs. unfold caseRelease.
    destruct (flt _ _); [left; simpl; congruence|].
    destruct (_ <? _); [left; simpl; congruence|].
    right. reflexivity.
  - destruct (existsb isHit (snd (loop powf config s now sample))) eqn:Hh;
      [|reflexivity].
    destruct (loop_hit powf config s now sample Hh) as (Hs' & _). congruence.
Qed.

Lemma cycle_release (inputs : list (Z * F)) :
  forall s : Drum F,
    s.(_now).(Now.state) = State.Release ->
    existsb isHit (callsOf (cycle (run powf config s inputs))) = false
    /\ Forall (fun r => (fst r).(_now).(Now.state) = State.Release
                        \/ (fst r).(_now).(Now.state) = State.Idle)
              (cycle (run powf config s inputs)).
Proof.
  induction inputs as [|[now sample] rest IH]; intros s Hs.
  { split; [reflexivity|constructor]. }
  simpl. set (r := loop powf config s now sample).
  destruct (loop_release s now sample Hs) as (Hst & Hh). fold r in Hst, Hh.
  destruct (isIdle (fst r)) eqn:Hi.
  - unfold callsOf. simpl. rewrite app_nil_r. split; [exact Hh|].
    constructor; [exact Hst|constructor].
  - apply isIdle_false in Hi. destruct Hst as [Hst|Hst]; [|contradiction].
    destruct (IH (fst r) Hst) as (IH1 & IH2).
    unfold callsOf in *. simpl. rewrite existsb_app, Hh, IH1.
    split; [reflexivity|]. constructor; [now left|exact IH2].
Qed.


End FastFall.


(** ** The end of a cycle *)

Section CycleEnd.
Context {F : Type} {FO : FloatOps F}.
Variable powf : F -> F -> F.
Variable config : Config.t F.

Lemma cycle_end (inputs : list (Z * F)) :
  forall (s : Drum F) c0 s' e,
    cycle (run powf config s inputs) = c0 ++ [(s', e)] ->
    isIdle s' = true ->
    s.(_now).(Now.state) <> State.Idle \/ c0 <> [] ->
    s'.(_now) = now0 /\ s'.(_pressure) = pressure0
    /\ s'.(_rising) = rising0 /\ s'.(_hit) = hit0.
Proof.
  induction inputs as [|[now sample] rest IH]; intros s c0 s' e Hc Hi Hleft.
  { destruct c0; discriminate. }
  simpl in Hc. set (r := loop powf config s now sample) in *.
  destruct (isIdle (fst r)) eqn:Hr.
  - destruct c0 as [|x c0]; [|destruct c0; discriminate].
    simpl in Hc. injection Hc as Hc. subst r.
    destruct Hleft as [Hs|Hs]; [|contradiction].
    apply isIdle_true in Hr.
    destruct (loop_closing powf config s now sample Hr)
      as [(Hst & _)|(_ & _ & _ & Hd)]; [contradiction|].
    rewrite Hc in Hd. simpl in Hd. rewrite Hd. simpl. auto.
  - destruct c0 as [|x c0].
    + simpl in Hc. injection Hc as Hc _. rewrite Hc in Hr. simpl in Hr.
      congruence.
    + simpl in Hc. injection Hc as Hx Hc. subst x.
      apply (IH (fst r) c0 s' e Hc Hi). left. now apply isIdle_false.
Qed.

(** C7 (amended).  After a complete cycle, Idle -> ... -> Idle, the
    groups [_now], [_pressure], [_rising] and [_hit] have the values
    [reset()] gives them. *)
Theorem cycle_end_state (s : Drum F) (inputs : list (Z * F)) c0 s' e :
  s.(_now).(Now.state) = State.Idle ->
  c0 <> [] ->
  cycle (run powf config s inputs) = c0 ++ [(s', e)] ->
  s'.(_now).(Now.state) = State.Idle ->
  s'.(_now) = reset.(_now) /\ s'.(_pressure) = reset.(_pressure)
  /\ s'.(_rising) = reset.(_rising) /\ s'.(_hit) = reset.(_hit).
Proof.
  intros _ Hc0 Hc Hi. apply isIdle_true in Hi.
  apply (cycle_end inputs s c0 s' e Hc Hi). now right.
Qed.

End CycleEnd.

Lemma cycle_end_state_witness :
  removelast Demo.cyc <> []
  /\ (fst (last Demo.cyc (reset, []))).(_now) = reset.(_now)
  /\ (fst (last Demo.cyc (reset, []))).(_pressure) = reset.(_pressure)
  /\ (fst (last Demo.cyc (reset, []))).(_rising) = reset.(_rising)
  /\ (fst (last Demo.cyc (reset, []))).(_hit) = reset.(_hit).
Proof.
  assert (H0 : removelast Demo.cyc <> []) by (vm_compute; discriminate).
  assert (Hc : cycle (run B32.powf Demo.config reset Demo.inputs)
               = removelast Demo.cyc
                 ++ [(fst (last Demo.cyc (reset, [])),
                      snd (last Demo.cyc (reset, [])))])
    by (vm_compute; reflexivity).
  assert (Hi : (fst (last Demo.cyc (reset, []))).(_now).(Now.state)
               = State.Idle) by (vm_compute; reflexivity).
  exact (conj H0 (cycle_end_state B32.powf Demo.config reset Demo.inputs
                    _ _ _ eq_refl H0 Hc Hi)).
Defined.

(** C7, as stated, fails: the execution [Demo.inputs] takes the machine
    from the constructed state through one complete cycle, and the state
    it ends in is not the state after [reset()]: the lag edge in
    [_history] is 17/64, not zero. *)
Lemma cycle_idempotence_counterexample :
  states B32.powf Demo.config reset Demo.inputs
  = [State.Rising; State.Rising; State.Hit; State.HitHold; State.HitHold;
     State.HitHold; State.HitHold; State.HitHold; State.HitRelease;
     State.Release; State.Release; State.Idle]
  /\ (final B32.powf Demo.config reset Demo.inputs).(_history).(History.lag)
     = B32.ratio 17 64
  /\ (@reset spec_float B32.ops).(_history).(History.lag) = B32.of_Z 0
  /\ final B32.powf Demo.config reset Demo.inputs <> reset.
Proof.
  split; [vm_compute; reflexivity|]. split; [vm_compute; reflexivity|].
  split; [vm_compute; reflexivity|].
  vm_compute. discriminate.
Qed.

(** ** The getters *)

Section Getters.
Context {F : Type} {FO : FloatOps F}.
Variable powf : F -> F -> F.
Variable config : Config.t F.

(** While the machine does not return to [Idle], [dispatch] leaves the
    stored and the measured fraction and step alone. *)
Lemma dispatch_busy_store now (s : Drum F) :
  let d := dispatch powf config now s in
  (fst d).(_now).(Now.state) <> State.Idle ->
  getFraction (fst d) = getFraction s
  /\ getStep (fst d) = getStep s
  /\ (fst d).(_now).(Now.fraction) = s.(_now).(Now.fraction)
  /\ (fst d).(_now).(Now.step) = s.(_now).(Now.step).
Proof.
  unfold dispatch, caseIdle, caseRising, caseHit, caseHitHold,
    caseHitRelease, caseRelease, getFraction, getStep.
  destruct (Now.state (_now s)); simpl;
    repeat match goal with
      | |- context [if ?b then _ else _] => destruct b; simpl
      end; intros H; auto; exfalso; apply H; reflexivity.
Qed.

(** After a call of [loop] that does not return the machine to [Idle]:
    the getters hold what the pressure call of that call carried; without
    a raw pressure call they are unchanged, or the measured step fell to 0
    and was stored. *)
Lemma loop_getters (s : Drum F) now sample :
  let r := loop powf config s now sample in
  (fst r).(_now).(Now.state) <> State.Idle ->
  (forall f st,
      In (handlePressureRaw f st) (snd r)
      \/ In (handlePressure f st) (snd r) ->
      getFraction (fst r) = f /\ getStep (fst r) = uint8_t st
      /\ (0 <= st < 256 -> getStep (fst r) = st))
  /\ (existsb isPressureRaw (snd r) = false ->
      (getFraction (fst r) = getFraction s
       /\ getStep (fst r) = getStep s)
      \/ ((fst r).(_now).(Now.step) = 0
          /\ getFraction (fst r) = (fst r).(_now).(Now.fraction)
          /\ getStep (fst r) = 0)).
Proof.
  simpl.
  rewrite loop_unfold.
  destruct (throttled now s); simpl.
  { intros _. split; [intros f st [[]|[]]|]. intros _. left. auto. }
  set (m := measured powf config now sample s).
  set (sp := sendPressure config now m).
  intros Hbusy.
  destruct (dispatch_busy powf config now (fst sp) Hbusy)
    as (_ & _ & Dp & Dq).
  destruct (dispatch_busy_store now (fst sp) Hbusy) as (Df & Ds & Dnf & Dns).
  destruct (sendPressure_frame config now m) as (Sn & _).
  fold sp in Sn.
  destruct (measured_frame powf config now sample s) as (_ & _ & Mp & _).
  fold m in Mp.
  assert (Hin : forall c, In c (snd sp ++ snd (dispatch powf config now (fst sp))) ->
                          isPressureRaw c = true \/ isPressure c = true ->
                          In c (snd sp)).
  { intros c Hc Hk. apply in_app_or in Hc. destruct Hc as [Hc|Hc]; [exact Hc|].
    exfalso. destruct Hk as [Hk|Hk].
    - assert (existsb isPressureRaw (snd (dispatch powf config now (fst sp))) = true)
        by (apply existsb_exists; eauto). congruence.
    - assert (existsb isPressure (snd (dispatch powf config now (fst sp))) = true)
        by (apply existsb_exists; eauto). congruence. }
  rewrite Df, Ds, Dnf, Dns, Sn.
  pose proof (sendPressure_outcome config now m) as O. fold sp in O.
  unfold getFraction, getStep in *.
  split.
  + intros f st Hc.
    assert (Hc' : In (handlePressureRaw f st) (snd sp)
                  \/ In (handlePressure f st) (snd sp)).
    { destruct Hc as [Hc|Hc]; [left|right];
        (apply Hin; [exact Hc|simpl; auto]). }
    clear Hc.
    assert (Hst : getFraction (fst sp) = f /\ getStep (fst sp) = uint8_t st).
    { unfold getFraction, getStep. revert Hc'.
      destruct O as [E|Hz Hf Hs _ _|Hz _ Hf Hs _ _|Hz _ Hf Hs _ _];
        simpl; intros Hc'.
      - destruct Hc' as [[]|[]].
      - destruct Hc' as [[]|[]].
      - destruct Hc' as [[Hc|[]]|[Hc|[]]]; [|discriminate].
        injection Hc as <- <-. rewrite Hf, Hs. auto.
      - destruct Hc' as [[Hc|[Hc|[]]]|[Hc|[Hc|[]]]]; try discriminate;
          injection Hc as <- <-; rewrite Hf, Hs; auto. }
    unfold getFraction, getStep in Hst. destruct Hst as (H1 & H2).
    split; [exact H1|]. split; [exact H2|].
    intros Hr. rewrite H2. unfold uint8_t. apply Z.mod_small. lia.
  + rewrite existsb_app, Dq, orb_false_r.
    destruct O as [E|Hz Hf Hs _ _|Hz _ Hf Hs _ _|Hz _ Hf Hs _ _];
      simpl; intros Hn; try discriminate.
    * left. rewrite E, Mp. auto.
    * right. auto.
Qed.

(** What [sendPressure] stores and calls, by the two tests it makes. *)
Lemma sendPressure_tests now (s : Drum F) :
  let r := sendPressure config now s in
  if negb (getStep s =? s.(_now).(Now.step))
     && negb (getUsecSince now s.(_pressure).(Pressure.usec) <? 20 * 1000)
  then
    getFraction (fst r) = s.(_now).(Now.fraction)
    /\ getStep (fst r) = uint8_t s.(_now).(Now.step)
    /\ snd r
       = if s.(_now).(Now.step) =? 0 then []
         else (if s.(_pressure).(Pressure.enabled)
               then [handlePressure s.(_now).(Now.fraction)
                                    s.(_now).(Now.step)]
               else [])
              ++ [handlePressureRaw s.(_now).(Now.fraction)
                                    s.(_now).(Now.step)]
  else r = (s, []).
Proof.
  unfold sendPressure, getStep, getFraction.
  destruct (_ =? _); simpl; [reflexivity|].
  destruct (_ <? _); simpl; [reflexivity|].
  destruct (Now.step (_now s) =? 0); simpl; [auto|].
  destruct (Pressure.enabled _); simpl; auto.
Qed.

(** Unless it ends a cycle, [dispatch] leaves the stored fraction and
    step alone and makes no pressure call. *)
Lemma dispatch_keeps now (s : Drum F) :
  let d := dispatch powf config now s in
  s.(_now).(Now.state) = State.Idle
  \/ (fst d).(_now).(Now.state) <> State.Idle ->
  getFraction (fst d) = getFraction s
  /\ getStep (fst d) = getStep s
  /\ filter (fun c => isPressure c || isPressureRaw c) (snd d) = [].
Proof.
  unfold dispatch, caseIdle, caseRising, caseHit, caseHitHold,
    caseHitRelease, caseRelease, getFraction, getStep.
  destruct (Now.state (_now s)); simpl;
    repeat match goal with
      | |- context [if ?b then _ else _] => destruct b; simpl
      end; intros [H|H]; auto; try discriminate;
    exfalso; apply H; reflexivity.
Qed.


End Getters.



(** ** The hit velocity *)

Section HitVelocity.
Context {F : Type} {FO : FloatOps F}.
Variable powf : F -> F -> F.
Variable config : Config.t F.

(** A call of [loop] made in [Rising] or [Hit] that leaves the machine in
    one of them has recorded the measured fraction in the peak, unless it
    was throttled. *)
Lemma loop_records_peak (s : Drum F) now sample :
  let r := loop powf config s now sample in
  s.(_now).(Now.state) = State.Rising \/ s.(_now).(Now.state) = State.Hit ->
  (fst r).(_now).(Now.state) = State.Rising
  \/ (fst r).(_now).(Now.state) = State.Hit ->
  (fst r).(_rising).(Rising.pressure)
  = if throttled now s then s.(_rising).(Rising.pressure)
    else greater s.(_rising).(Rising.pressure)
           (measured powf config now sample s).(_now).(Now.fraction).
Proof.
  simpl. rewrite loop_unfold.
  destruct (throttled now s); simpl; [reflexivity|].
  set (m := measured powf config now sample s).
  set (sp := sendPressure config now m).
  pose proof (dispatch_state powf config s now sample) as Hst. fold m sp in Hst.
  destruct (sendPressure_frame config now m) as (Sn & Sr & _).
  fold sp in Sn, Sr.
  destruct (measured_frame powf config now sample s) as (_ & _ & _ & Mr & _).
  fold m in Mr.
  intros Hs. unfold dispatch. rewrite Hst.
  destruct Hs as [Hs|Hs]; rewrite Hs.
  - unfold caseRising, greater. rewrite Sr, Sn, Mr.
    destruct (_ =? _); simpl; [intros [H|H]; discriminate|].
    destruct (_ <? _); simpl; [reflexivity|].
    destruct (fle _ _); simpl; [intros [H|H]; discriminate|reflexivity].
  - simpl. intros [H|H]; discriminate.
Qed.

Lemma rising_peak (inputs : list (Z * F)) :
  forall s : Drum F,
    s.(_now).(Now.state) = State.Rising \/ s.(_now).(Now.state) = State.Hit ->
    Forall (fun st => st = State.Rising \/ st = State.Hit)
           (states powf config s inputs) ->
    (final powf config s inputs).(_rising).(Rising.pressure)
    = risingPeak powf config s inputs s.(_rising).(Rising.pressure).
Proof.
  induction inputs as [|[now sample] rest IH]; intros s Hs Hall.
  { reflexivity. }
  unfold states in Hall. simpl in Hall.
  apply Forall_cons_iff in Hall. destruct Hall as (H1 & Hall).
  rewrite final_cons. simpl risingPeak.
  rewrite (IH _ H1 Hall).
  now rewrite (loop_records_peak s now sample Hs H1).
Qed.

(** The call of [loop] made in [Hit]. *)
Lemma loop_in_hit (s : Drum F) now sample :
  let r := loop powf config s now sample in
  s.(_now).(Now.state) = State.Hit ->
  throttled now s = false ->
  (fst r).(_now).(Now.state) = State.HitHold
  /\ (fst r).(_hit).(Hit.velocity) = hitVelocity powf config s.(_rising).(Rising.pressure)
  /\ exists e0,
       snd r = e0 ++ [handleHit (hitVelocity powf config
                                   s.(_rising).(Rising.pressure))]
       /\ existsb isHit e0 = false.
Proof.
  simpl. intros Hs Ht. rewrite loop_unfold, Ht. simpl.
  set (m := measured powf config now sample s).
  set (sp := sendPressure config now m).
  pose proof (dispatch_state powf config s now sample) as Hst. fold m sp in Hst.
  destruct (sendPressure_frame config now m) as (_ & Sr & _). fold sp in Sr.
  destruct (measured_frame powf config now sample s) as (_ & _ & _ & Mr & _).
  fold m in Mr.
  unfold dispatch. rewrite Hst, Hs. unfold caseHit. simpl.
  rewrite Sr, Mr. split; [reflexivity|]. split; [reflexivity|].
  exists (snd sp). split; [reflexivity|].
  apply (sendPressure_flags config now m).
Qed.

Lemma loop_from_idle (s : Drum F) now sample :
  s.(_now).(Now.state) = State.Idle ->
  (fst (loop powf config s now sample)).(_rising).(Rising.pressure)
  = s.(_rising).(Rising.pressure).
Proof.
  intros Hs. rewrite loop_unfold.
  destruct (throttled now s); simpl; [reflexivity|].
  set (m := measured powf config now sample s).
  pose proof (dispatch_state powf config s now sample) as Hst. fold m in Hst.
  destruct (sendPressure_frame config now m) as (_ & Sr & _).
  destruct (measured_frame powf config now sample s) as (_ & _ & _ & Mr & _).
  fold m in Mr.
  unfold dispatch. rewrite Hst, Hs. unfold caseIdle.
  destruct (_ =? _); simpl; congruence.
Qed.

End HitVelocity.

(** C1 (amended).  Hit velocity.  Let the machine leave [Idle] for
    [Rising], stay in [Rising] over the calls [inputs] until it is in
    [Hit], and let [peak] be the peak recorded over those calls: starting
    from 0, the greatest conditioned fraction measured by a call made in
    [Rising].  The next call of [loop] that is not throttled leaves the
    machine in [HitHold] and its last callback is [handleHit(velocity)],
    the only hit callback of that call, where [velocity] is
    [ceilf(powf(f, hit.exponent) * (nSteps - 1))] stored in 8 bits, with
    [f = (min(peak, hit.max) - hit.min) / (hit.max - hit.min)]; it equals
    that ceiling whenever the ceiling is at most 255.  With [nSteps = 128],
    [hit.min = 0.1], [hit.max = 0.9], [hit.exponent = 1] and peak 0.5 the
    velocity is 64, in binary32 as in exact arithmetic. *)
Theorem hit_velocity
    {F : Type} {FO : FloatOps F} (powf : F -> F -> F) (config : Config.t F)
    (s0 : Drum F) now0 sample0 (inputs : list (Z * F)) now sample :
  reachable powf config s0 ->
  s0.(_now).(Now.state) = State.Idle ->
  let s := fst (loop powf config s0 now0 sample0) in
  s.(_now).(Now.state) = State.Rising ->
  Forall (fun st => st = State.Rising \/ st = State.Hit)
         (states powf config s inputs) ->
  let s1 := final powf config s inputs in
  s1.(_now).(Now.state) = State.Hit ->
  throttled now s1 = false ->
  let peak := risingPeak powf config s inputs (f_of_Z 0) in
  let r := loop powf config s1 now sample in
  (fst r).(_now).(Now.state) = State.HitHold
  /\ (exists e0,
        snd r = e0 ++ [handleHit (hitVelocity powf config peak)]
        /\ existsb isHit e0 = false)
  /\ hitVelocity powf config peak
     = uint8_t
         (f_to_Z
            (ceilf
               (fmul
                  (powf
                     (fdiv
                        (fsub (if flt config.(Config.hit_max) peak
                               then config.(Config.hit_max) else peak)
                              config.(Config.hit_min))
                        (fsub config.(Config.hit_max)
                              config.(Config.hit_min)))
                     config.(Config.hit_exponent))
                  (f_of_Z (config.(Config.nSteps) - 1)))))
  /\ (0 <= f_to_Z (hitCeil powf config peak) <= 255 ->
      hitVelocity powf config peak = f_to_Z (hitCeil powf config peak))
  /\ hitVelocity B32.powf Demo.config (B32.ratio 1 2) = 64
  /\ hitVelocity Exact.powf Demo.configQ (1 # 2) = 64.
Proof.
  intros Hreach Hidle s Hs Hall s1 Hs1 Ht peak r.
  assert (Hpeak : s1.(_rising).(Rising.pressure) = peak).
  { unfold s1, peak. rewrite (rising_peak powf config inputs s); auto.
    f_equal. unfold s. rewrite loop_from_idle by exact Hidle.
    destruct (reachable_idleClean powf config s0 Hreach Hidle) as (_ & R & _).
    now rewrite R. }
  destruct (loop_in_hit powf config s1 now sample Hs1 Ht) as (H1 & _ & H2).
  rewrite Hpeak in H2.
  split; [exact H1|]. split; [exact H2|]. split; [reflexivity|].
  split.
  - intros Hr. unfold hitVelocity, uint8_t. apply Z.mod_small. lia.
  - split; vm_compute; reflexivity.
Qed.

Lemma hit_velocity_witness :
  exists e0,
    snd (loop B32.powf Demo.config Demo.decided 103000 (B32.ratio 1 2))
    = e0 ++ [handleHit 64]
    /\ existsb isHit e0 = false.
Proof.
  assert (Hs : (fst (loop B32.powf Demo.config reset 100000 (B32.ratio 1 2)))
                 .(_now).(Now.state) = State.Rising)
    by (vm_compute; reflexivity).
  assert (Hall : Forall (fun st => st = State.Rising \/ st = State.Hit)
                   (states B32.powf Demo.config
                      (fst (loop B32.powf Demo.config reset 100000
                              (B32.ratio 1 2)))
                      Demo.rising)).
  { vm_compute. repeat (apply Forall_cons; [auto|]). apply Forall_nil. }
  assert (Hh : (final B32.powf Demo.config
                  (fst (loop B32.powf Demo.config reset 100000
                          (B32.ratio 1 2)))
                  Demo.rising).(_now).(Now.state) = State.Hit)
    by (vm_compute; reflexivity).
  assert (Ht : throttled 103000
                 (final B32.powf Demo.config
                    (fst (loop B32.powf Demo.config reset 100000
                            (B32.ratio 1 2)))
                    Demo.rising) = false)
    by (vm_compute; reflexivity).
  destruct (hit_velocity B32.powf Demo.config reset 100000 (B32.ratio 1 2)
              Demo.rising 103000 (B32.ratio 1 2)
              (reachable_reset _ _) eq_refl Hs Hall Hh Ht)
    as (_ & H & _).
  exact H.
Defined.

(** C1, as stated, fails for more than 256 steps: with [nSteps = 1024]
    and a peak at [hit.max] the ceiling is 1023, and the velocity passed to
    [handleHit], which takes 8 bits, is 255. *)
Lemma hit_velocity_counterexample :
  B32.to_Z (hitCeil B32.powf Demo.fine (B32.ratio 9 10)) = 1023
  /\ (fst (loop B32.powf Demo.fine Demo.decidedFine 103000 (B32.ratio 9 10)))
       .(_now).(Now.state) = State.HitHold
  /\ snd (loop B32.powf Demo.fine Demo.decidedFine 103000 (B32.ratio 9 10))
     = [handleHit 255].
Proof.
  split; [vm_compute; reflexivity|]. split; vm_compute; reflexivity.
Qed.

(** ** Exact arithmetic *)

Section ExactFacts.
Local Open Scope Q_scope.

Lemma exact_ltb_true (a b : Q) : Exact.ltb a b = true <-> a < b.
Proof.
  unfold Exact.ltb. rewrite Qlt_alt.
  destruct (a ?= b); split; intros H; congruence.
Qed.

Lemma exact_ltb_false (a b : Q) : Exact.ltb a b = false <-> b <= a.
Proof.
  split; intros H.
  - apply Qnot_lt_le. intros Hlt. apply exact_ltb_true in Hlt. congruence.
  - destruct (Exact.ltb a b) eqn:E; [|reflexivity].
    apply exact_ltb_true in E. exfalso. apply (Qlt_not_le _ _ E H).
Qed.

Lemma exact_leb_true (a b : Q) : Exact.leb a b = true <-> a <= b.
Proof.
  unfold Exact.leb. rewrite Qle_alt.
  destruct (a ?= b); split; intros H; congruence.
Qed.

Lemma exact_leb_false (a b : Q) : Exact.leb a b = false <-> b < a.
Proof.
  split; intros H.
  - apply Qnot_le_lt. intros Hle. apply exact_leb_true in Hle. congruence.
  - destruct (Exact.leb a b) eqn:E; [|reflexivity].
    apply exact_leb_true in E. exfalso. apply (Qlt_not_le _ _ H E).
Qed.

Lemma exact_to_Z_inject (z : Z) : Exact.to_Z (inject_Z z) = z.
Proof. unfold Exact.to_Z. simpl. apply Z.quot_1_r. Qed.

Lemma exact_to_Z_floor (x : Q) : 0 <= x -> Exact.to_Z x = Qfloor x.
Proof.
  destruct x as [n d]. unfold Qle, Exact.to_Z, Qfloor. simpl.
  rewrite Z.mul_1_r. intros Hn.
  apply Z.quot_div_nonneg; [exact Hn|reflexivity].
Qed.

Lemma exact_round_nonneg (x : Q) :
  0 <= x -> Exact.round x = inject_Z (Qfloor (x + (1 # 2))).
Proof.
  intros Hx. unfold Exact.round.
  destruct (Qle_bool (inject_Z 0) x) eqn:E; [reflexivity|].
  apply Qle_bool_iff in Hx. unfold inject_Z in E. congruence.
Qed.

(** Rounding a value of [[0, n]] gives an integer of [[0, n]]. *)
Lemma exact_round_range (x : Q) (n : Z) :
  0 <= x -> x <= inject_Z n ->
  (0 <= Exact.to_Z (Exact.round x) <= n)%Z.
Proof.
  intros H0 Hn. rewrite exact_round_nonneg by exact H0.
  rewrite exact_to_Z_inject. split.
  - assert (H : (Qfloor 0 <= Qfloor (x + (1 # 2)))%Z)
      by (apply Qfloor_resp_le; lra).
    exact H.
  - assert (H : (Qfloor (x + (1 # 2)) < n + 1)%Z).
    { rewrite Zlt_Qlt. eapply Qle_lt_trans; [apply Qfloor_le|].
      rewrite inject_Z_plus. change (inject_Z 1) with 1. lra. }
    lia.
Qed.

(** The ceiling of a value of [(0, n]] is an integer of [[1, n]]. *)
Lemma exact_ceil_range (x : Q) (n : Z) :
  0 < x -> x <= inject_Z n ->
  (1 <= Exact.to_Z (Exact.ceil x) <= n)%Z.
Proof.
  intros H0 Hn. unfold Exact.ceil. rewrite exact_to_Z_inject. split.
  - assert (H : (0 < Qceiling x)%Z).
    { rewrite Zlt_Qlt. eapply Qlt_le_trans; [exact H0|apply Qle_ceiling]. }
    lia.
  - rewrite <- (Qceiling_Z n). now apply Qceiling_resp_le.
Qed.

Lemma exact_unit_product (a b : Q) :
  0 <= a <= 1 -> 0 <= b -> 0 <= a * b <= b.
Proof. intros Ha Hb. nra. Qed.

Lemma exact_unit_product_pos (a b : Q) :
  0 < a <= 1 -> 0 < b -> 0 < a * b <= b.
Proof. intros Ha Hb. nra. Qed.

Lemma exact_unit_quotient (a b : Q) :
  0 <= a <= b -> 0 < b -> 0 <= a / b <= 1.
Proof.
  intros Ha Hb. split.
  - apply Qle_shift_div_l; [exact Hb|]. lra.
  - apply Qle_shift_div_r; [exact Hb|]. lra.
Qed.

Lemma exact_unit_quotient_pos (a b : Q) :
  0 < a <= b -> 0 < b -> 0 < a / b <= 1.
Proof.
  intros Ha Hb. split.
  - apply Qlt_shift_div_l; [exact Hb|]. lra.
  - apply Qle_shift_div_r; [exact Hb|]. lra.
Qed.

(** [Exact.powf] keeps the unit interval for a non-negative exponent. *)
Lemma exact_power_positive_unit (x : Q) (p : positive) :
  0 <= x <= 1 -> 0 <= Qpower_positive x p <= 1.
Proof.
  intros Hx. induction p as [p IH|p IH|]; simpl.
  - assert (H := exact_unit_product _ _ IH (proj1 IH)). nra.
  - assert (H := exact_unit_product _ _ IH (proj1 IH)). nra.
  - exact Hx.
Qed.

Lemma exact_powf_unit (x e : Q) :
  0 <= e -> 0 <= x <= 1 -> 0 <= Exact.powf x e <= 1.
Proof.
  intros He Hx. unfold Exact.powf.
  assert (Hf : (Qfloor 0 <= Qfloor e)%Z) by now apply Qfloor_resp_le.
  change (Qfloor 0) with 0%Z in Hf.
  destruct (Qfloor e) as [|p|p]; simpl.
  - lra.
  - now apply exact_power_positive_unit.
  - lia.
Qed.

Lemma exact_powf_unit_pos (x e : Q) :
  0 < e -> 0 < x <= 1 -> 0 < Exact.powf x e <= 1.
Proof.
  intros He Hx. split.
  - apply Qpower_0_lt. apply Hx.
  - apply exact_powf_unit; lra.
Qed.

End ExactFacts.

(** ** The release velocity *)

Section ReleaseVelocity.
Context {F : Type} {FO : FloatOps F}.
Variable powf : F -> F -> F.
Variable config : Config.t F.

(** The call of [loop] made in [HitRelease]. *)
Lemma loop_in_hitRelease (s : Drum F) now sample :
  let r := loop powf config s now sample in
  s.(_now).(Now.state) = State.HitRelease ->
  throttled now s = false ->
  (fst r).(_now).(Now.state) = State.Release
  /\ exists e0,
       snd r = e0 ++ [handleRelease
                        (releaseVelocity config
                           (uint32_t (now - s.(_falling).(Falling.usec))))]
       /\ existsb isRelease e0 = false.
Proof.
  simpl. intros Hs Ht. rewrite loop_unfold, Ht. simpl.
  set (m := measured powf config now sample s).
  set (sp := sendPressure config now m).
  pose proof (dispatch_state powf config s now sample) as Hst. fold m sp in Hst.
  destruct (sendPressure_frame config now m) as (_ & _ & _ & Sf & _).
  fold sp in Sf.
  destruct (measured_frame powf config now sample s)
    as (_ & _ & _ & _ & _ & Mf).
  fold m in Mf.
  unfold dispatch. rewrite Hst, Hs. unfold caseHitRelease. simpl.
  rewrite Sf, Mf. split; [reflexivity|].
  exists (snd sp). split; [reflexivity|].
  unfold sp.
  destruct (sendPressure_outcome config now m); reflexivity.
Qed.

End ReleaseVelocity.

Section ReleaseVelocityExact.
Local Open Scope Q_scope.
Variable config : Config.t Q.
Variables lo hi : Z.
Hypothesis minUsec_whole : config.(Config.release_minUsec) = inject_Z lo.
Hypothesis maxUsec_whole : config.(Config.release_maxUsec) = inject_Z hi.
Hypothesis bounds : (0 <= lo < hi)%Z.
Hypothesis maxUsec_range : (hi < 2 ^ 32)%Z.

Lemma releaseDuration_clamp (d : Z) :
  releaseDuration config d = Z.max lo (Z.min d hi).
Proof.
  unfold releaseDuration. rewrite minUsec_whole, maxUsec_whole.
  cbn [flt fle f_of_Z f_to_Z Exact.ops].
  rewrite !exact_to_Z_inject.
  destruct (Exact.ltb (inject_Z hi) (inject_Z d)) eqn:E1.
  - apply exact_ltb_true in E1. rewrite <- Zlt_Qlt in E1.
    unfold uint32_t. rewrite Z.mod_small by lia. lia.
  - apply exact_ltb_false in E1. rewrite <- Zle_Qle in E1.
    destruct (Exact.ltb (inject_Z d) (inject_Z lo)) eqn:E2.
    + apply exact_ltb_true in E2. rewrite <- Zlt_Qlt in E2.
      unfold uint32_t. rewrite Z.mod_small by lia. lia.
    + apply exact_ltb_false in E2. rewrite <- Zle_Qle in E2. lia.
Qed.

Lemma releaseValue_exact (d : Z) :
  releaseValue config d
  == 127 - 126 * ((inject_Z (Z.max lo (Z.min d hi)) - inject_Z lo)
                  / (inject_Z hi - inject_Z lo)).
Proof.
  unfold releaseValue. rewrite releaseDuration_clamp.
  rewrite minUsec_whole, maxUsec_whole.
  cbn [fsub fmul fdiv f_of_Z Exact.ops].
  change (inject_Z 127) with 127. change (inject_Z 126) with 126. ring.
Qed.

Lemma releaseValue_range (d : Z) :
  1 <= releaseValue config d <= 127.
Proof.
  rewrite releaseValue_exact.
  set (c := Z.max lo (Z.min d hi)).
  assert (Hc : (lo <= c <= hi)%Z) by (unfold c; lia).
  assert (Hr : 0 < inject_Z hi - inject_Z lo).
  { destruct bounds as (_ & Hb). rewrite Zlt_Qlt in Hb. lra. }
  assert (Hq : 0 <= (inject_Z c - inject_Z lo) / (inject_Z hi - inject_Z lo)
               <= 1).
  { apply exact_unit_quotient; [|exact Hr].
    destruct Hc as (H1 & H2). rewrite Zle_Qle in H1, H2. lra. }
  lra.
Qed.

Lemma releaseVelocity_exact (d : Z) :
  releaseVelocity config d
  = Qfloor (127 - 126 * ((inject_Z (Z.max lo (Z.min d hi)) - inject_Z lo)
                         / (inject_Z hi - inject_Z lo)))
  /\ (1 <= releaseVelocity config d <= 127)%Z.
Proof.
  pose proof (releaseValue_range d) as (H1 & H127).
  assert (Hv : releaseVelocity config d = Qfloor (releaseValue config d)).
  { unfold releaseVelocity. cbn [f_to_Z Exact.ops].
    rewrite exact_to_Z_floor by lra.
    unfold uint8_t. apply Z.mod_small. split.
    - assert (H : (Qfloor 1 <= Qfloor (releaseValue config d))%Z)
        by now apply Qfloor_resp_le.
      change (Qfloor 1) with 1%Z in H. lia.
    - assert (H : (Qfloor (releaseValue config d) <= Qfloor 127)%Z)
        by now apply Qfloor_resp_le.
      change (Qfloor 127) with 127%Z in H. lia. }
  split.
  - rewrite Hv. apply Qfloor_comp. apply releaseValue_exact.
  - rewrite Hv. split.
    + assert (H : (Qfloor 1 <= Qfloor (releaseValue config d))%Z)
        by now apply Qfloor_resp_le.
      exact H.
    + assert (H : (Qfloor (releaseValue config d) <= Qfloor 127)%Z)
        by now apply Qfloor_resp_le.
      exact H.
Qed.

Lemma releaseVelocity_short (d : Z) :
  (d <= lo)%Z -> releaseVelocity config d = 127%Z.
Proof.
  intros Hd. destruct (releaseVelocity_exact d) as (Hv & _).
  rewrite Hv. replace (Z.max lo (Z.min d hi)) with lo by lia.
  assert (Hr : ~ inject_Z hi - inject_Z lo == 0).
  { destruct bounds as (_ & Hb). rewrite Zlt_Qlt in Hb. lra. }
  assert (E : 127 - 126 * ((inject_Z lo - inject_Z lo)
                           / (inject_Z hi - inject_Z lo)) == 127)
    by (field; exact Hr).
  rewrite (Qfloor_comp _ _ E). reflexivity.
Qed.

End ReleaseVelocityExact.

(** ** The reference of the fall *)

Section FallReference.
Context {F : Type} {FO : FloatOps F}.
Variable powf : F -> F -> F.
Variable config : Config.t F.

(** [caseHitHold] keeps the reference of the fall as [fallStep] says. *)
Lemma caseHitHold_fall now (s : Drum F) :
  fallOf (fst (caseHitHold config now s))
  = fallStep config now s.(_now).(Now.step) (fallOf s).
Proof.
  unfold caseHitHold, fallStep, fallOf.
  destruct (Hit.holdUsec (_hit s) =? 0); simpl;
    destruct (_ <? _); simpl; try reflexivity;
    destruct (_ <=? _); simpl;
    destruct (_ =? 0); simpl; try reflexivity;
    destruct (_ <? _); reflexivity.
Qed.

(** A call of [loop] made while the hit is held, or while its release
    is due, that leaves the machine in one of the two. *)
Lemma loop_records_fall (s : Drum F) now sample :
  let r := loop powf config s now sample in
  s.(_now).(Now.state) = State.HitHold
  \/ s.(_now).(Now.state) = State.HitRelease ->
  (fst r).(_now).(Now.state) = State.HitHold
  \/ (fst r).(_now).(Now.state) = State.HitRelease ->
  fallOf (fst r)
  = if throttled now s then fallOf s
    else fallStep config now
           (measured powf config now sample s).(_now).(Now.step) (fallOf s).
Proof.
  simpl. rewrite loop_unfold.
  destruct (throttled now s); simpl; [reflexivity|].
  set (m := measured powf config now sample s).
  set (sp := sendPressure config now m).
  pose proof (dispatch_state powf config s now sample) as Hst. fold m sp in Hst.
  destruct (sendPressure_frame config now m) as (Sn & _ & Sh & Sf & _).
  fold sp in Sn, Sh, Sf.
  destruct (measured_frame powf config now sample s)
    as (_ & _ & _ & _ & Mh & Mf).
  fold m in Mh, Mf.
  intros Hs. unfold dispatch. rewrite Hst.
  destruct Hs as [Hs|Hs]; rewrite Hs.
  - intros _. rewrite caseHitHold_fall. rewrite Sn.
    unfold fallOf. now rewrite Sh, Sf, Mh, Mf.
  - simpl. intros [H|H]; discriminate.
Qed.

Lemma fall_over (inputs : list (Z * F)) :
  forall s : Drum F,
    s.(_now).(Now.state) = State.HitHold
    \/ s.(_now).(Now.state) = State.HitRelease ->
    Forall (fun st => st = State.HitHold \/ st = State.HitRelease)
           (states powf config s inputs) ->
    fallOf (final powf config s inputs)
    = fallOver powf config s inputs (fallOf s).
Proof.
  induction inputs as [|[now sample] rest IH]; intros s Hs Hall.
  { reflexivity. }
  unfold states in Hall. simpl in Hall.
  apply Forall_cons_iff in Hall. destruct Hall as (H1 & Hall).
  rewrite final_cons. simpl fallOver.
  rewrite (IH _ H1 Hall).
  now rewrite (loop_records_fall s now sample Hs H1).
Qed.

(** Before the hold has begun the reading the fall is timed from does
    not matter: the first call that is not throttled replaces it. *)
Lemma fallOver_fresh (inputs : list (Z * F)) :
  forall (s : Drum F) (u u' top : Z),
    fallOver powf config s inputs (0, u, top)
    = fallOver powf config s inputs (0, u', top)
    \/ final powf config s inputs = s.
Proof.
  induction inputs as [|[now sample] rest IH]; intros s u u' top.
  { right. reflexivity. }
  simpl fallOver. rewrite final_cons.
  destruct (throttled now s) eqn:Ht.
  - rewrite (loop_throttled powf config s now sample Ht). simpl.
    apply IH.
  - left. reflexivity.
Qed.

(** The call of [loop] made in [Hit] leaves the reference of the fall
    alone. *)
Lemma loop_hit_fall (s : Drum F) now sample :
  s.(_now).(Now.state) = State.Hit ->
  throttled now s = false ->
  fallOf (fst (loop powf config s now sample)) = fallOf s.
Proof.
  intros Hs Ht. rewrite loop_unfold, Ht. simpl.
  set (m := measured powf config now sample s).
  set (sp := sendPressure config now m).
  pose proof (dispatch_state powf config s now sample) as Hst. fold m sp in Hst.
  destruct (sendPressure_frame config now m) as (_ & _ & Sh & Sf & _).
  fold sp in Sh, Sf.
  destruct (measured_frame powf config now sample s)
    as (_ & _ & _ & _ & Mh & Mf).
  fold m in Mh, Mf.
  unfold dispatch. rewrite Hst, Hs. unfold caseHit, fallOf. simpl.
  now rewrite Sh, Sf, Mh, Mf.
Qed.

Lemma dispatch_unheld now (s : Drum F) :
  let d := dispatch powf config now s in
  (fst d).(_now).(Now.state) <> State.Idle ->
  early (fst d).(_now).(Now.state) = true ->
  early s.(_now).(Now.state) = true
  /\ (fst d).(_hit) = s.(_hit).
Proof.
  unfold dispatch, caseIdle, caseRising, caseHit, caseHitHold,
    caseHitRelease, caseRelease.
  destruct (Now.state (_now s)) eqn:Hs; simpl;
    repeat match goal with
      | |- context [if ?b then _ else _] => destruct b; simpl
      end; rewrite ?Hs; simpl; intros Hn He;
    try discriminate; try (exfalso; apply Hn; reflexivity); auto.
Qed.

Lemma loop_unheld (s : Drum F) now sample :
  unheld s ->
  (fst (loop powf config s now sample)).(_now).(Now.state) <> State.Idle ->
  unheld (fst (loop powf config s now sample)).
Proof.
  rewrite loop_unfold.
  destruct (throttled now s); simpl; [auto|].
  set (m := measured powf config now sample s).
  set (sp := sendPressure config now m).
  intros Hu Hn He.
  pose proof (dispatch_state powf config s now sample) as Hst. fold m sp in Hst.
  destruct (sendPressure_frame config now m) as (_ & _ & Sh & _).
  fold sp in Sh.
  destruct (measured_frame powf config now sample s)
    as (_ & _ & _ & _ & Mh & _).
  fold m in Mh.
  destruct (dispatch_unheld now (fst sp) Hn He) as (Hes & Hh).
  rewrite Hst in Hes. rewrite Hh, Sh, Mh. exact (Hu Hes).
Qed.

Lemma reachable_unheld (s : Drum F) :
  reachable powf config s -> unheld s.
Proof.
  induction 1 as [|s now sample Hr IH].
  - intros _. reflexivity.
  - destruct (isIdle (fst (loop powf config s now sample))) eqn:Hi.
    + apply isIdle_true in Hi. intros _.
      pose proof (reachable_idleClean powf config _
                    (reachable_loop powf config s now sample Hr) Hi)
        as (_ & _ & Hh).
      rewrite Hh. reflexivity.
    + apply isIdle_false in Hi.
      apply (loop_unheld s now sample IH Hi).
Qed.

End FallReference.




(** ** The range of the step *)

Section Steps.
Context {F : Type} {FO : FloatOps F}.
Variable powf : F -> F -> F.
Variable config : Config.t F.

(** [dispatch] keeps the measured and the stored step, or clears both. *)
Lemma dispatch_steps now (s : Drum F) :
  let d := dispatch powf config now s in
  ((fst d).(_now).(Now.step) = s.(_now).(Now.step)
   /\ (fst d).(_pressure).(Pressure.step) = s.(_pressure).(Pressure.step))
  \/ ((fst d).(_now).(Now.step) = 0
      /\ (fst d).(_pressure).(Pressure.step) = 0).
Proof.
  unfold dispatch, caseIdle, caseRising, caseHit, caseHitHold,
    caseHitRelease, caseRelease.
  destruct (Now.state (_now s)); simpl;
    repeat match goal with
      | |- context [if ?b then _ else _] => destruct b; simpl
      end; auto.
Qed.

Lemma sendPressure_steps now (s : Drum F) :
  stepsInRange config s ->
  stepsInRange config (fst (sendPressure config now s)).
Proof.
  intros (Hn & Hp). unfold stepsInRange.
  destruct (sendPressure_frame config now s) as (Sn & _). rewrite Sn.
  split; [exact Hn|].
  assert (H8 : 0 <= uint8_t (Now.step (_now s)) <= Now.step (_now s)).
  { unfold uint8_t. split.
    - apply Z.mod_pos_bound. reflexivity.
    - apply Z.mod_le; [lia|reflexivity]. }
  destruct (sendPressure_outcome config now s)
    as [E|Hz Hf Hs _ _|Hz _ Hf Hs _ _|Hz _ Hf Hs _ _].
  - rewrite E. exact Hp.
  - rewrite Hs. lia.
  - rewrite Hs. lia.
  - rewrite Hs. lia.
Qed.

End Steps.

Section StepsExact.
Local Open Scope Q_scope.
Variable powf : Q -> Q -> Q.
Variable config : Config.t Q.
Hypothesis nSteps_range : (1 <= config.(Config.nSteps) < 2 ^ 16)%Z.
Hypothesis pressure_range :
  config.(Config.pressure_min) < config.(Config.pressure_max).
Hypothesis exponent_nonneg : 0 <= config.(Config.pressure_exponent).
Hypothesis powf_unit :
  forall x e, 0 <= e -> 0 <= x <= 1 -> 0 <= powf x e <= 1.

Lemma normalized_unit (h : Q) :
  config.(Config.pressure_min) <= h <= config.(Config.pressure_max) ->
  0 <= normalized powf config h <= 1.
Proof.
  intros Hh. unfold normalized. cbn [fsub fdiv Exact.ops].
  apply powf_unit; [exact exponent_nonneg|].
  apply exact_unit_quotient; lra.
Qed.

Lemma quantized_range (fraction : Q) :
  0 <= fraction <= 1 ->
  (0 <= quantized config fraction <= config.(Config.nSteps) - 1)%Z.
Proof.
  intros Hf. unfold quantized. cbn [fmul f_of_Z f_to_Z roundf Exact.ops].
  assert (Hn : 0 <= inject_Z (config.(Config.nSteps) - 1)).
  { change 0 with (inject_Z 0). rewrite <- Zle_Qle. lia. }
  pose proof (exact_unit_product _ _ Hf Hn) as Hy.
  pose proof (exact_round_range _ _ (proj1 Hy) (proj2 Hy)) as Hr.
  unfold uint16_t. rewrite Z.mod_small by lia. exact Hr.
Qed.

Lemma measure_steps sample (s : Drum Q) :
  stepsInRange config s -> stepsInRange config (measure powf config sample s).
Proof.
  intros (Hn & Hp). unfold stepsInRange, measure.
  set (h := filtered config sample s).
  cbn [flt fle Exact.ops].
  destruct (Exact.ltb h (Config.pressure_min config)) eqn:E1.
  { simpl. split; [lia|exact Hp]. }
  destruct (Exact.ltb (Config.pressure_max config) h) eqn:E2.
  { simpl. split; [|exact Hp]. unfold uint16_t. rewrite Z.mod_small; lia. }
  simpl. split; [|exact Hp].
  destruct (Exact.leb _ _); [|exact Hp].
  apply quantized_range. apply normalized_unit.
  apply exact_ltb_false in E1, E2. auto.
Qed.

Lemma loop_steps (s : Drum Q) now sample :
  stepsInRange config s ->
  stepsInRange config (fst (loop powf config s now sample)).
Proof.
  intros Hs. rewrite loop_unfold.
  destruct (throttled now s); simpl; [exact Hs|].
  assert (Hm : stepsInRange config (measured powf config now sample s)).
  { unfold measured. apply measure_steps. exact Hs. }
  pose proof (sendPressure_steps config now _ Hm) as (Hn & Hp).
  destruct (dispatch_steps powf config now
              (fst (sendPressure config now
                      (measured powf config now sample s))))
    as [(E1 & E2)|(E1 & E2)]; unfold stepsInRange; rewrite E1, E2.
  - auto.
  - lia.
Qed.

Lemma reachable_steps (s : Drum Q) :
  reachable powf config s -> stepsInRange config s.
Proof.
  induction 1 as [|s now sample _ IH].
  - unfold stepsInRange. simpl. lia.
  - now apply loop_steps.
Qed.

End StepsExact.




(** ** The hit velocity is not zero *)

Section Armed.
Context {F : Type} {FO : FloatOps F}.
Variable powf : F -> F -> F.
Variable config : Config.t F.

(** [dispatch] enters [Hit] only with a peak above [hit.min]. *)
Lemma dispatch_hitArmed now (s : Drum F) :
  hitArmed config (fst (dispatch powf config now s)).
Proof.
  unfold hitArmed, dispatch, caseIdle, caseRising, caseHit, caseHitHold,
    caseHitRelease, caseRelease.
  destruct (Now.state (_now s)) eqn:Hs; simpl;
    repeat match goal with
      | |- context [if ?b then _ else _] => destruct b eqn:?; simpl
      end; rewrite ?Hs; intros H; try discriminate; assumption.
Qed.

Lemma loop_hitArmed (s : Drum F) now sample :
  hitArmed config s -> hitArmed config (fst (loop powf config s now sample)).
Proof.
  intros Hs. rewrite loop_unfold.
  destruct (throttled now s); simpl; [exact Hs|].
  apply dispatch_hitArmed.
Qed.

Lemma reachable_hitArmed (s : Drum F) :
  reachable powf config s -> hitArmed config s.
Proof.
  induction 1 as [|s now sample _ IH].
  - intros H. discriminate.
  - now apply loop_hitArmed.
Qed.

(** Every [handleHit] call carries the velocity of the recorded peak. *)
Lemma loop_hit_velocity (s : Drum F) now sample v :
  In (handleHit v) (snd (loop powf config s now sample)) ->
  s.(_now).(Now.state) = State.Hit
  /\ v = hitVelocity powf config s.(_rising).(Rising.pressure).
Proof.
  intros Hin.
  assert (Hh : existsb isHit (snd (loop powf config s now sample)) = true).
  { apply existsb_exists. exists (handleHit v). auto. }
  destruct (loop_hit powf config s now sample Hh) as (Hs & _).
  split; [exact Hs|].
  destruct (throttled now s) eqn:Ht.
  { rewrite (loop_throttled powf config s now sample Ht) in Hin. destruct Hin. }
  destruct (loop_in_hit powf config s now sample Hs Ht)
    as (_ & _ & e0 & He & Hno).
  rewrite He in Hin. apply in_app_or in Hin. destruct Hin as [Hin|[Hin|[]]].
  - assert (existsb isHit e0 = true)
      by (apply existsb_exists; exists (handleHit v); auto).
    congruence.
  - congruence.
Qed.

End Armed.

Section ArmedExact.
Local Open Scope Q_scope.
Variable powf : Q -> Q -> Q.
Variable config : Config.t Q.
Hypothesis hit_range : config.(Config.hit_min) < config.(Config.hit_max).
Hypothesis exponent_pos : 0 < config.(Config.hit_exponent).
Hypothesis nSteps_range : (2 <= config.(Config.nSteps) <= 256)%Z.
Hypothesis powf_unit_pos :
  forall x e, 0 < e -> 0 < x <= 1 -> 0 < powf x e <= 1.

Lemma hitVelocity_range (peak : Q) :
  config.(Config.hit_min) < peak ->
  (1 <= hitVelocity powf config peak <= config.(Config.nSteps) - 1)%Z.
Proof.
  intros Hpeak.
  assert (Hclamp : config.(Config.hit_min) < hitPeak config peak
                   <= config.(Config.hit_max)).
  { unfold hitPeak. cbn [flt Exact.ops].
    destruct (Exact.ltb (Config.hit_max config) peak) eqn:E.
    - lra.
    - apply exact_ltb_false in E. lra. }
  assert (Hf : 0 < hitFraction powf config peak <= 1).
  { unfold hitFraction. cbn [fsub fdiv Exact.ops].
    apply powf_unit_pos; [exact exponent_pos|].
    apply exact_unit_quotient_pos; lra. }
  assert (Hn : 0 < inject_Z (config.(Config.nSteps) - 1)).
  { change 0 with (inject_Z 0). rewrite <- Zlt_Qlt. lia. }
  pose proof (exact_unit_product_pos _ _ Hf Hn) as Hy.
  pose proof (exact_ceil_range _ _ (proj1 Hy) (proj2 Hy)) as Hc.
  unfold hitVelocity, hitCeil.
  cbn [fmul f_of_Z f_to_Z ceilf Exact.ops].
  unfold uint8_t. rewrite Z.mod_small by lia. exact Hc.
Qed.

End ArmedExact.

(** C10 (amended).  The hit velocity is never zero, in exact arithmetic.
    For a configuration with [hit.min < hit.max], [hit.exponent > 0] (for
    which [powf] maps (0, 1] into (0, 1]) and [2 <= nSteps <= 256], every
    [handleHit] call made from a reachable state carries a velocity of at
    least 1, and at most [nSteps - 1]. *)
Theorem hit_velocity_positive
    (powf : Q -> Q -> Q) (config : Config.t Q) (s : Drum Q) now sample v :
  (config.(Config.hit_min) < config.(Config.hit_max))%Q ->
  (0 < config.(Config.hit_exponent))%Q ->
  2 <= config.(Config.nSteps) <= 256 ->
  (forall x e, 0 < e -> 0 < x <= 1 -> 0 < powf x e <= 1)%Q ->
  reachable powf config s ->
  In (handleHit v) (snd (loop powf config s now sample)) ->
  1 <= v <= config.(Config.nSteps) - 1.
Proof.
  intros Hr He Hn Hpow Hreach Hin.
  destruct (loop_hit_velocity powf config s now sample v Hin) as (Hs & Hv).
  pose proof (reachable_hitArmed powf config s Hreach Hs) as Harm.
  cbn [fle Exact.ops] in Harm. apply exact_leb_false in Harm.
  rewrite Hv. now apply hitVelocity_range.
Qed.

Lemma hit_velocity_positive_witness :
  In (handleHit 64)
     (snd (loop Exact.powf Demo.configQ Demo.decidedQ 103000 (1 # 2)))
  /\ 1 <= 64 <= Demo.configQ.(Config.nSteps) - 1.
Proof.
  assert (Hin : In (handleHit 64)
                   (snd (loop Exact.powf Demo.configQ Demo.decidedQ 103000
                           (1 # 2))))
    by (vm_compute; left; reflexivity).
  assert (Hr : (Demo.configQ.(Config.hit_min)
                < Demo.configQ.(Config.hit_max))%Q)
    by (vm_compute; reflexivity).
  assert (He : (0 < Demo.configQ.(Config.hit_exponent))%Q)
    by (vm_compute; reflexivity).
  assert (Hn : 2 <= Demo.configQ.(Config.nSteps) <= 256)
    by (vm_compute; split; discriminate).
  assert (Hreach : reachable Exact.powf Demo.configQ Demo.decidedQ).
  { apply reachable_final. apply reachable_reset. }
  exact (conj Hin (hit_velocity_positive Exact.powf Demo.configQ Demo.decidedQ
                     103000 (1 # 2) 64 Hr He Hn exact_powf_unit_pos
                     Hreach Hin)).
Defined.

(** C10, as stated, fails.  In binary32 the corrected fraction can
    underflow to zero: with [hit.min = 0.5 < hit.max = 1],
    [hit.exponent = 7] and 128 steps, a peak of 0.5 + 2^-24 is above
    [hit.min], its normalized fraction is 2^-23, [powf(2^-23, 7) = 2^-161]
    rounds to 0, and [handleHit] is called with velocity 0.  And with more
    than 256 steps the ceiling can be a multiple of 256: with 257 steps and
    a peak at [hit.max] it is 256, which the 8-bit velocity does not
    hold. *)
Lemma hit_velocity_positive_counterexample :
  (SFltb Demo.steep.(Config.hit_min) Demo.steep.(Config.hit_max) = true
   /\ SFltb (B32.of_Z 0) Demo.steep.(Config.hit_exponent) = true
   /\ Demo.steep.(Config.nSteps) = 128
   /\ (final B32.powf Demo.steep reset (removelast Demo.graze))
        .(_now).(Now.state) = State.Hit
   /\ SFltb Demo.steep.(Config.hit_min)
            (final B32.powf Demo.steep reset (removelast Demo.graze))
              .(_rising).(Rising.pressure) = true
   /\ hitFraction B32.powf Demo.steep (B32.ratio 8388609 16777216)
      = B32.of_Z 0
   /\ calls B32.powf Demo.steep reset Demo.graze
      = [handlePressureRaw (B32.ratio 8388609 16777216) 64; handleHit 0])
  /\ (B32.to_Z (hitCeil B32.powf Demo.wide (B32.ratio 9 10)) = 256
      /\ In (handleHit 0) (calls B32.powf Demo.wide reset Demo.full)).
Proof.
  split.
  - repeat split; vm_compute; reflexivity.
  - split; [vm_compute; reflexivity|]. vm_compute. auto.
Qed.

(** ** The lag *)

Section Edge.
Context {F : Type} {FO : FloatOps F}.
Variable powf : F -> F -> F.
Variable config : Config.t F.

Lemma dispatch_history now (s : Drum F) :
  (fst (dispatch powf config now s)).(_history) = s.(_history).
Proof.
  unfold dispatch, caseIdle, caseRising, caseHit, caseHitHold,
    caseHitRelease, caseRelease.
  destruct (Now.state (_now s)); simpl;
    repeat match goal with
      | |- context [if ?b then _ else _] => destruct b; simpl
      end; reflexivity.
Qed.

(** When [sendPressure] makes a call it has moved the edge of the lag:
    below the fraction when the fraction is above the old edge, above it
    otherwise. *)
Lemma sendPressure_edge now (s : Drum F) :
  snd (sendPressure config now s) <> [] ->
  (fst (sendPressure config now s)).(_history).(History.lag)
  = if flt (f_of_Z 0)
           (fsub s.(_now).(Now.fraction) s.(_history).(History.lag))
    then fsub s.(_now).(Now.fraction) config.(Config.lag)
    else fadd s.(_now).(Now.fraction) config.(Config.lag).
Proof.
  unfold sendPressure.
  destruct (_ =? _); [simpl; congruence|].
  destruct (_ <? _); [simpl; congruence|].
  destruct (_ =? _); [simpl; congruence|].
  destruct (Pressure.enabled _); simpl; reflexivity.
Qed.

(** After a call of [loop] that made a raw pressure call and did not
    return the machine to [Idle]: what was called, what is stored, and
    where the edge is. *)
Lemma loop_emitted (s : Drum F) now sample f st :
  let r := loop powf config s now sample in
  let m := measured powf config now sample s in
  In (handlePressureRaw f st) (snd r) ->
  (fst r).(_now).(Now.state) <> State.Idle ->
  f = m.(_now).(Now.fraction)
  /\ getFraction (fst r) = f
  /\ getStep (fst r) = uint8_t st
  /\ (fst r).(_history).(History.lag)
     = if flt (f_of_Z 0) (fsub f m.(_history).(History.lag))
       then fsub f config.(Config.lag)
       else fadd f config.(Config.lag).
Proof.
  simpl. intros Hin Hbusy.
  destruct (loop_getters powf config s now sample Hbusy) as (G1 & _).
  destruct (G1 f st (or_introl Hin)) as (Gf & Gs & _).
  clear G1.
  destruct (throttled now s) eqn:Ht.
  { rewrite (loop_throttled powf config s now sample Ht) in Hin.
    destruct Hin. }
  pose proof (loop_unfold powf config s now sample) as E.
  rewrite Ht in E. simpl in E. rewrite E in Hin, Hbusy, Gf, Gs |- *.
  simpl in Hin, Hbusy, Gf, Gs |- *. clear E.
  set (m := measured powf config now sample s) in *.
  set (sp := sendPressure config now m) in *.
  destruct (dispatch_busy powf config now (fst sp) Hbusy) as (_ & _ & _ & Dq).
  assert (Hsp : In (handlePressureRaw f st) (snd sp)).
  { apply in_app_or in Hin. destruct Hin as [Hin|Hin]; [exact Hin|].
    assert (existsb isPressureRaw
              (snd (dispatch powf config now (fst sp))) = true)
      by (apply existsb_exists; exists (handlePressureRaw f st); auto).
    congruence. }
  assert (Hf : f = Now.fraction (_now m)).
  { revert Hsp. unfold sp.
    destruct (sendPressure_outcome config now m); simpl; intros Hc.
    - destruct Hc.
    - destruct Hc.
    - destruct Hc as [Hc|[]]. congruence.
    - destruct Hc as [Hc|[Hc|[]]]; congruence. }
  split; [exact Hf|]. split; [exact Gf|]. split; [exact Gs|].
  rewrite dispatch_history. unfold sp.
  rewrite sendPressure_edge.
  - now rewrite <- Hf.
  - fold sp. intros E. rewrite E in Hsp. destruct Hsp.
Qed.

(** A call that reports a step measured a step other than the stored
    one. *)
Lemma loop_reported (s : Drum F) now sample f st :
  let r := loop powf config s now sample in
  In (handlePressureRaw f st) (snd r) ->
  (fst r).(_now).(Now.state) <> State.Idle ->
  (measured powf config now sample s).(_now).(Now.step) <> getStep s.
Proof.
  simpl. intros Hin Hbusy.
  destruct (throttled now s) eqn:Ht.
  { rewrite (loop_throttled powf config s now sample Ht) in Hin.
    destruct Hin. }
  pose proof (loop_unfold powf config s now sample) as E.
  rewrite Ht in E. simpl in E. rewrite E in Hin, Hbusy.
  simpl in Hin, Hbusy. clear E.
  set (m := measured powf config now sample s) in *.
  set (sp := sendPressure config now m) in *.
  destruct (dispatch_busy powf config now (fst sp) Hbusy) as (_ & _ & _ & Dq).
  assert (Hsp : In (handlePressureRaw f st) (snd sp)).
  { apply in_app_or in Hin. destruct Hin as [Hin|Hin]; [exact Hin|].
    assert (existsb isPressureRaw
              (snd (dispatch powf config now (fst sp))) = true)
      by (apply existsb_exists; exists (handlePressureRaw f st); auto).
    congruence. }
  destruct (measured_frame powf config now sample s) as (_ & _ & Mp & _).
  fold m in Mp.
  pose proof (sendPressure_tests config now m) as T. fold sp in T.
  cbv zeta in T.
  destruct (getStep m =? Now.step (_now m)) eqn:Hq; simpl in T.
  - rewrite T in Hsp. destruct Hsp.
  - apply Z.eqb_neq in Hq. unfold getStep in *. rewrite Mp in Hq.
    intros Heq. apply Hq. now rewrite Heq.
Qed.

End Edge.

Section EdgeExact.
Local Open Scope Q_scope.
Variable powf : Q -> Q -> Q.
Variable config : Config.t Q.

(** Within the range, a fraction less than [lag] away from the edge
    keeps the stored step, and [sendPressure] then makes no call. *)
Lemma measured_inside_lag (s : Drum Q) now sample :
  let h := filtered config sample s in
  let m := measured powf config now sample s in
  config.(Config.pressure_min) <= h <= config.(Config.pressure_max) ->
  Qabs (normalized powf config h - s.(_history).(History.lag))
    < config.(Config.lag) ->
  m.(_now).(Now.step) = getStep s
  /\ sendPressure config now m = (m, []).
Proof.
  cbv zeta. intros Hh Hlag.
  assert (Hm : (measured powf config now sample s).(_now).(Now.step)
               = getStep s).
  { assert (E1 : Exact.ltb (filtered config sample s)
                   (Config.pressure_min config) = false)
      by (apply exact_ltb_false; apply Hh).
    assert (E2 : Exact.ltb (Config.pressure_max config)
                   (filtered config sample s) = false)
      by (apply exact_ltb_false; apply Hh).
    assert (E3 : Exact.leb (Config.lag config)
                   (Qabs (normalized powf config (filtered config sample s)
                          - History.lag (_history s))) = false)
      by (apply exact_leb_false; exact Hlag).
    unfold measured, measure.
    change (filtered config sample (set_now_usec now s))
      with (filtered config sample s).
    change (_history (set_now_usec now s)) with (_history s).
    change (_pressure (set_now_usec now s)) with (_pressure s).
    cbn [flt fle fabs fsub Exact.ops].
    rewrite E1, E2, E3. reflexivity. }
  split; [exact Hm|].
  destruct (measured_frame powf config now sample s) as (_ & _ & Mp & _).
  unfold sendPressure. rewrite Mp, Hm. unfold getStep.
  now rewrite Z.eqb_refl.
Qed.

(** Within the range [measure] keeps the edge and conditions the
    filtered value; a step other than the stored one comes from the
    quantizer, which runs only at [lag] or more from the edge. *)
Lemma measured_in_range (s : Drum Q) now sample :
  let h := filtered config sample s in
  let m := measured powf config now sample s in
  config.(Config.pressure_min) <= h <= config.(Config.pressure_max) ->
  m.(_history).(History.lag) = s.(_history).(History.lag)
  /\ m.(_now).(Now.fraction) = normalized powf config h
  /\ (m.(_now).(Now.step) <> getStep s ->
      config.(Config.lag)
      <= Qabs (normalized powf config h - s.(_history).(History.lag))).
Proof.
  cbv zeta. intros Hh.
  assert (E1 : Exact.ltb (filtered config sample s)
                 (Config.pressure_min config) = false)
    by (apply exact_ltb_false; apply Hh).
  assert (E2 : Exact.ltb (Config.pressure_max config)
                 (filtered config sample s) = false)
    by (apply exact_ltb_false; apply Hh).
  unfold measured, measure.
  change (filtered config sample (set_now_usec now s))
    with (filtered config sample s).
  change (_history (set_now_usec now s)) with (_history s).
  change (_pressure (set_now_usec now s)) with (_pressure s).
  cbn [flt fle fabs fsub Exact.ops].
  rewrite E1, E2.
  cbn [_history _now History.lag Now.fraction Now.step].
  split; [reflexivity|]. split; [reflexivity|].
  destruct (Exact.leb (Config.lag config)
              (Qabs (normalized powf config (filtered config sample s)
                     - History.lag (_history s)))) eqn:E3.
  - intros _. apply exact_leb_true. exact E3.
  - intros H. exfalso. apply H. reflexivity.
Qed.

End EdgeExact.




(** * Further properties of the machine *)

(** ** The transitions *)

Section Transitions.
Context {F : Type} {FO : FloatOps F}.
Variable powf : F -> F -> F.
Variable config : Config.t F.

Lemma dispatch_transition now (s : Drum F) :
  let d := dispatch powf config now s in
  transition s.(_now).(Now.state) (fst d).(_now).(Now.state) = true
  /\ (s.(_now).(Now.state) = State.Hit ->
      (fst d).(_now).(Now.state) = State.HitHold)
  /\ (s.(_now).(Now.state) = State.HitRelease ->
      (fst d).(_now).(Now.state) = State.Release).
Proof.
  unfold dispatch, caseIdle, caseRising, caseHit, caseHitHold,
    caseHitRelease, caseRelease.
  destruct (Now.state (_now s)) eqn:Hs; simpl;
    repeat match goal with
      | |- context [if ?b then _ else _] => destruct b; simpl
      end; rewrite ?Hs; repeat split; intros; try discriminate; reflexivity.
Qed.

Lemma transition_refl (a : State.t) : @transition a a = true.
Proof. destruct a; reflexivity. Qed.

(** Every call of [loop] takes one of the thirteen transitions of the
    switch, whatever the clock and the sample; [Hit] and [HitRelease] last
    for one call that is not throttled. *)
Theorem loop_transition (s : Drum F) now sample :
  let s' := fst (loop powf config s now sample) in
  transition s.(_now).(Now.state) s'.(_now).(Now.state) = true
  /\ (throttled now s = false ->
      (s.(_now).(Now.state) = State.Hit ->
       s'.(_now).(Now.state) = State.HitHold)
      /\ (s.(_now).(Now.state) = State.HitRelease ->
          s'.(_now).(Now.state) = State.Release)).
Proof.
  simpl. rewrite loop_unfold.
  destruct (throttled now s); simpl.
  - split; [apply transition_refl|discriminate].
  - pose proof (dispatch_state powf config s now sample) as Hst.
    destruct (dispatch_transition now
                (fst (sendPressure config now
                        (measured powf config now sample s))))
      as (H1 & H2 & H3).
    rewrite Hst in H1, H2, H3. auto.
Qed.

End Transitions.

(** ** Hits and releases of a cycle *)

Section Counting.
Context {F : Type}.

Lemma count_app (p : Callback F -> bool) (l1 l2 : list (Callback F)) :
  count p (l1 ++ l2) = count p l1 + count p l2.
Proof.
  unfold count. rewrite filter_app, length_app. lia.
Qed.

Lemma count_nonneg (p : Callback F -> bool) (l : list (Callback F)) :
  0 <= count p l.
Proof. unfold count. lia. Qed.

Lemma count_zero (p : Callback F -> bool) (l : list (Callback F)) :
  count p l = 0 <-> existsb p l = false.
Proof.
  unfold count. induction l as [|c l IH]; simpl; [tauto|].
  destruct (p c); simpl.
  - split; [lia|discriminate].
  - exact IH.
Qed.

Lemma followedBy_app (p q : Callback F -> bool) (l1 l2 : list (Callback F)) :
  followedBy p q (l1 ++ l2)
  = followedBy p q l1 || (existsb p l1 && existsb q l2) || followedBy p q l2.
Proof.
  induction l1 as [|c l1 IH]; simpl; [reflexivity|].
  rewrite IH, existsb_app.
  destruct (p c), (existsb q l1), (existsb q l2), (followedBy p q l1),
    (existsb p l1), (followedBy p q l2); reflexivity.
Qed.

Lemma followedBy_none (p q : Callback F -> bool) (l : list (Callback F)) :
  existsb p l = false -> followedBy p q l = false.
Proof.
  induction l as [|c l IH]; simpl; [reflexivity|].
  intros H. apply orb_false_elim in H. destruct H as [Hc H].
  now rewrite Hc, (IH H).
Qed.

Lemma followedBy_none_after (p q : Callback F -> bool) (l : list (Callback F)) :
  existsb q l = false -> followedBy p q l = false.
Proof.
  induction l as [|c l IH]; simpl; [reflexivity|].
  intros H. apply orb_false_elim in H. destruct H as [_ H].
  now rewrite H, (IH H), andb_false_r.
Qed.

End Counting.

Section Pairing.
Context {F : Type} {FO : FloatOps F}.
Variable powf : F -> F -> F.
Variable config : Config.t F.

(** The hit and release calls of [dispatch], by the state it runs in. *)
Lemma dispatch_counts now (s : Drum F) :
  let d := dispatch powf config now s in
  count isHit (snd d)
  = (if State.eqb s.(_now).(Now.state) State.Hit then 1 else 0)
  /\ count isRelease (snd d)
     = (if State.eqb s.(_now).(Now.state) State.HitRelease then 1 else 0).
Proof.
  unfold dispatch, caseIdle, caseRising, caseHit, caseHitHold,
    caseHitRelease, caseRelease, terminalZeros.
  destruct (Now.state (_now s)); simpl;
    repeat match goal with
      | |- context [if ?b then _ else _] => destruct b; simpl
      end; split; reflexivity.
Qed.

Lemma sendPressure_counts now (s : Drum F) :
  count isHit (snd (sendPressure config now s)) = 0
  /\ count isRelease (snd (sendPressure config now s)) = 0.
Proof.
  destruct (sendPressure_outcome config now s); split; reflexivity.
Qed.

(** One call of [loop] keeps the count of hits and releases in step with
    the state. *)
Lemma loop_phase (s : Drum F) now sample h r :
  let l := loop powf config s now sample in
  phase s.(_now).(Now.state) h r ->
  settled (fst l).(_now).(Now.state)
          (h + count isHit (snd l)) (r + count isRelease (snd l))
  /\ (existsb isHit (snd l) = true ->
      r = 0 /\ existsb isRelease (snd l) = false).
Proof.
  simpl. rewrite loop_unfold.
  destruct (throttled now s); simpl.
  { intros Hp. change (count isHit (@nil (Callback F))) with 0.
    change (count isRelease (@nil (Callback F))) with 0.
    rewrite !Z.add_0_r. split; [|discriminate].
    destruct (Now.state (_now s)); simpl in *; auto; lia. }
  set (m := measured powf config now sample s).
  set (sp := sendPressure config now m).
  pose proof (dispatch_state powf config s now sample) as Hst.
  fold m sp in Hst.
  destruct (sendPressure_counts now m) as (Sh & Sr). fold sp in Sh, Sr.
  destruct (dispatch_counts now (fst sp)) as (Dh & Dr).
  destruct (dispatch_transition powf config now (fst sp)) as (T & TH & TR).
  rewrite Hst in Dh, Dr, T, TH, TR.
  rewrite !count_app, Sh, Sr, Dh, Dr. simpl.
  intros Hp. split.
  - destruct (Now.state (_now s)) eqn:Hs; simpl in *.
    + destruct (Now.state (_now (fst (dispatch powf config now (fst sp)))));
        simpl in *; try discriminate; lia.
    + destruct (Now.state (_now (fst (dispatch powf config now (fst sp)))));
        simpl in *; try discriminate; lia.
    + rewrite (TH eq_refl). simpl. lia.
    + destruct (Now.state (_now (fst (dispatch powf config now (fst sp)))));
        simpl in *; try discriminate; lia.
    + rewrite (TR eq_refl). simpl. lia.
    + destruct (Now.state (_now (fst (dispatch powf config now (fst sp)))));
        simpl in *; try discriminate; lia.
  - rewrite !existsb_app. intros Hh.
    assert (Hc : count isHit (snd sp ++ snd (dispatch powf config now (fst sp)))
                 <> 0).
    { intros Hz. apply count_zero in Hz. rewrite existsb_app in Hz.
      congruence. }
    rewrite count_app, Sh, Dh in Hc.
    destruct (Now.state (_now s)) eqn:Hs; simpl in Hc; try lia.
    simpl in Hp. split; [lia|].
    apply orb_false_intro; apply count_zero; [exact Sr|].
    rewrite Dr. reflexivity.
Qed.

Lemma cycle_pairing (inputs : list (Z * F)) :
  forall (s : Drum F) (E : list (Callback F)),
    phase s.(_now).(Now.state) (count isHit E) (count isRelease E) ->
    followedBy isRelease isHit E = false ->
    let c := cycle (run powf config s inputs) in
    settled (stateAfter s c)
            (count isHit (E ++ callsOf c)) (count isRelease (E ++ callsOf c))
    /\ followedBy isRelease isHit (E ++ callsOf c) = false.
Proof.
  induction inputs as [|[now sample] rest IH]; intros s E Hp Ho.
  { simpl. unfold callsOf, stateAfter. simpl. rewrite app_nil_r.
    split; [|exact Ho].
    destruct (Now.state (_now s)); simpl in *; auto. lia. }
  simpl. set (l := loop powf config s now sample).
  destruct (loop_phase s now sample _ _ Hp) as (Hs & Hh). fold l in Hs, Hh.
  rewrite <- !count_app in Hs.
  assert (Ho' : followedBy isRelease isHit (E ++ snd l) = false).
  { rewrite followedBy_app, Ho. simpl.
    destruct (existsb isHit (snd l)) eqn:Eh.
    - destruct (Hh eq_refl) as (Hr & Hn).
      apply count_zero in Hr. rewrite Hr. simpl.
      now apply followedBy_none.
    - rewrite andb_false_r. simpl. now apply followedBy_none_after. }
  destruct (isIdle (fst l)) eqn:Hi.
  - unfold callsOf, stateAfter. simpl. rewrite app_nil_r. auto.
  - apply isIdle_false in Hi.
    assert (Hp' : phase (Now.state (_now (fst l)))
                    (count isHit (E ++ snd l)) (count isRelease (E ++ snd l))).
    { destruct (Now.state (_now (fst l))); simpl in *; auto. contradiction. }
    destruct (IH (fst l) (E ++ snd l) Hp' Ho') as (I1 & I2).
    replace (E ++ callsOf (l :: cycle (run powf config (fst l) rest)))
      with ((E ++ snd l) ++ callsOf (cycle (run powf config (fst l) rest)))
      by (unfold callsOf; simpl; now rewrite app_assoc).
    unfold stateAfter in *. simpl map. rewrite last_cons_default. auto.
Qed.

(** In a cycle of the machine [handleHit] is called at most once,
    [handleRelease] at most as often as [handleHit] and never before it;
    once the cycle is in [Release], or complete, each hit has had its
    release. *)
Theorem hit_release_pairing (s : Drum F) (inputs : list (Z * F)) :
  s.(_now).(Now.state) = State.Idle ->
  let c := cycle (run powf config s inputs) in
  0 <= count isHit (callsOf c) <= 1
  /\ 0 <= count isRelease (callsOf c) <= count isHit (callsOf c)
  /\ followedBy isRelease isHit (callsOf c) = false
  /\ (stateAfter s c = State.Release \/ stateAfter s c = State.Idle ->
      count isRelease (callsOf c) = count isHit (callsOf c)).
Proof.
  intros Hi c.
  assert (Hp : phase s.(_now).(Now.state)
                 (count isHit (@nil (Callback F)))
                 (count isRelease (@nil (Callback F)))).
  { rewrite Hi. simpl. auto. }
  destruct (cycle_pairing inputs s [] Hp eq_refl) as (H1 & H2).
  simpl in H1, H2. fold c in H1, H2.
  pose proof (count_nonneg isRelease (callsOf c)) as Hr.
  split; [|split; [|split; [exact H2|]]].
  - destruct (stateAfter s c); simpl in H1; lia.
  - destruct (stateAfter s c); simpl in H1; lia.
  - intros [Hst|Hst]; rewrite Hst in H1; simpl in H1; lia.
Qed.

End Pairing.

Lemma hit_release_pairing_witness :
  count isHit (callsOf Demo.cyc) = 1
  /\ count isRelease (callsOf Demo.cyc) = 1
  /\ 0 <= count isRelease (callsOf Demo.cyc) <= count isHit (callsOf Demo.cyc).
Proof.
  split; [vm_compute; reflexivity|]. split; [vm_compute; reflexivity|].
  exact (proj1 (proj2 (hit_release_pairing B32.powf Demo.config reset
                         Demo.inputs eq_refl))).
Defined.

(** ** Confirmed pressure calls are raw pressure calls *)

Section Paired.
Context {F : Type} {FO : FloatOps F}.
Variable powf : F -> F -> F.
Variable config : Config.t F.

Lemma paired_app (l1 l2 : list (Callback F)) :
  paired l1 -> paired l2 -> paired (l1 ++ l2).
Proof.
  induction l1 as [|c l1 IH]; intros H1 H2; [exact H2|].
  destruct c as [f st|f st|v|v]; simpl in *; auto.
  destruct l1 as [|c' l1]; [contradiction|].
  destruct c' as [f' st'|f' st'|v'|v']; try contradiction.
  destruct H1 as (Hf & Hs & H1). simpl. auto.
Qed.

Lemma dispatch_paired now (s : Drum F) :
  flagsOrdered s ->
  paired (snd (dispatch powf config now s))
  /\ flagsOrdered (fst (dispatch powf config now s)).
Proof.
  unfold flagsOrdered, dispatch, caseIdle, caseRising, caseHit, caseHitHold,
    caseHitRelease, caseRelease, terminalZeros.
  destruct (Now.state (_now s)); simpl;
    repeat match goal with
      | |- context [if ?b then _ else _] => destruct b eqn:?; simpl
      end; intros H; auto; try discriminate.
  specialize (H eq_refl). discriminate.
Qed.

Lemma sendPressure_paired now (s : Drum F) :
  flagsOrdered s ->
  paired (snd (sendPressure config now s))
  /\ flagsOrdered (fst (sendPressure config now s)).
Proof.
  unfold flagsOrdered. intros H.
  destruct (sendPressure_outcome config now s)
    as [E|Hz Hf Hs H1 H2|Hz He Hf Hs H1 H2|Hz He Hf Hs H1 H2]; simpl.
  - rewrite E. auto.
  - rewrite H1, H2. auto.
  - rewrite H2. auto.
  - rewrite H2. auto.
Qed.

Lemma loop_paired (s : Drum F) now sample :
  flagsOrdered s ->
  paired (snd (loop powf config s now sample))
  /\ flagsOrdered (fst (loop powf config s now sample)).
Proof.
  intros H. rewrite loop_unfold.
  destruct (throttled now s); simpl; [auto|].
  set (m := measured powf config now sample s).
  assert (Hm : flagsOrdered m).
  { unfold flagsOrdered.
    destruct (measured_frame powf config now sample s) as (_ & _ & Mp & _).
    fold m in Mp. rewrite Mp. exact H. }
  destruct (sendPressure_paired now m Hm) as (P1 & F1).
  destruct (dispatch_paired now _ F1) as (P2 & F2).
  split; [now apply paired_app|exact F2].
Qed.

Lemma reachable_flagsOrdered (s : Drum F) :
  reachable powf config s -> flagsOrdered s.
Proof.
  induction 1 as [|s now sample _ IH].
  - intros H. discriminate.
  - now apply loop_paired.
Qed.

Lemma run_paired (inputs : list (Z * F)) :
  forall s : Drum F,
    flagsOrdered s -> paired (calls powf config s inputs).
Proof.
  induction inputs as [|[now sample] rest IH]; intros s H; [exact I|].
  unfold calls. simpl.
  destruct (loop_paired s now sample H) as (P & H').
  apply paired_app; [exact P|]. now apply IH.
Qed.

(** In every execution from a reachable state each [handlePressure] call
    is followed at once by a [handlePressureRaw] call with the same
    fraction and step: the confirmed pressure calls, terminal zero
    included, are a part of the raw ones. *)
Theorem confirmed_pressure_is_raw (s : Drum F) (inputs : list (Z * F)) :
  reachable powf config s -> paired (calls powf config s inputs).
Proof.
  intros Hr. apply run_paired. now apply reachable_flagsOrdered.
Qed.

End Paired.

Lemma confirmed_pressure_is_raw_witness :
  existsb isPressure (calls B32.powf Demo.config reset Demo.inputs) = true
  /\ paired (calls B32.powf Demo.config reset Demo.inputs).
Proof.
  split; [vm_compute; reflexivity|].
  exact (confirmed_pressure_is_raw B32.powf Demo.config reset Demo.inputs
           (reachable_reset _ _)).
Defined.

(** ** The clock *)

(** The elapsed time is exact across an overflow of the 32-bit clock: if
    [e] microseconds, fewer than 2^32, have passed since the reading
    [since], the difference of the wrapped reading and [since] is [e]. *)
Theorem getUsecSince_wraps (since e : Z) :
  0 <= since < 2 ^ 32 ->
  0 <= e < 2 ^ 32 ->
  getUsecSince (uint32_t (since + e)) since = e.
Proof.
  intros Hs He. unfold getUsecSince, uint32_t.
  rewrite Zminus_mod_idemp_l.
  replace (since + e - since) with e by ring.
  apply Z.mod_small. exact He.
Qed.

Lemma getUsecSince_wraps_witness :
  getUsecSince (uint32_t (4294967000 + 1000)) 4294967000 = 1000
  /\ uint32_t (4294967000 + 1000) = 704.
Proof.
  split; [|reflexivity].
  apply getUsecSince_wraps; lia.
Defined.

(** ** The throttle and the rate limit *)

Section Limits.
Context {F : Type} {FO : FloatOps F}.
Variable powf : F -> F -> F.
Variable config : Config.t F.

Lemma run_throttled (inputs : list (Z * F)) (s : Drum F) :
  Forall (fun i => throttled (fst i) s = true) inputs ->
  final powf config s inputs = s /\ calls powf config s inputs = [].
Proof.
  induction inputs as [|[now sample] rest IH]; intros H; [auto|].
  apply Forall_cons_iff in H. destruct H as (H1 & H).
  simpl in H1. rewrite final_cons. unfold calls. simpl.
  rewrite (loop_throttled powf config s now sample H1). simpl.
  apply (IH H).
Qed.

(** A call of [loop] that is not throttled and does not return the
    machine to [Idle] stamps the state with its clock reading. *)
Lemma loop_stamp (s : Drum F) now sample :
  throttled now s = false ->
  (fst (loop powf config s now sample)).(_now).(Now.state) <> State.Idle ->
  (fst (loop powf config s now sample)).(_now).(Now.usec) = now.
Proof.
  intros Ht. rewrite loop_unfold, Ht. simpl.
  set (m := measured powf config now sample s).
  destruct (measured_frame powf config now sample s) as (_ & Mu & _).
  destruct (sendPressure_frame config now m) as (Sn & _).
  fold m in Mu. revert Mu. rewrite <- Sn.
  generalize (fst (sendPressure config now m)). intros x.
  unfold dispatch, caseIdle, caseRising, caseHit, caseHitHold,
    caseHitRelease, caseRelease.
  destruct (Now.state (_now x)); simpl;
    repeat match goal with
      | |- context [if ?b then _ else _] => destruct b; simpl
      end; intros Hu Hb; auto; exfalso; apply Hb; reflexivity.
Qed.

(** After a call of [loop] that was processed at the reading [now] and
    left the machine out of [Idle], the calls made less than 500
    microseconds later, wrap-around of the clock included, change nothing
    and call nothing. *)
Theorem throttle_window (s : Drum F) now sample (inputs : list (Z * F)) :
  throttled now s = false ->
  let s' := fst (loop powf config s now sample) in
  s'.(_now).(Now.state) <> State.Idle ->
  Forall (fun i => getUsecSince (fst i) now < 500) inputs ->
  final powf config s' inputs = s' /\ calls powf config s' inputs = [].
Proof.
  intros Ht s' Hb Hall. apply run_throttled.
  pose proof (loop_stamp s now sample Ht Hb) as Hu. fold s' in Hu.
  eapply Forall_impl; [|exact Hall].
  intros [t a] H. simpl in *. unfold throttled. rewrite Hu.
  now apply Z.ltb_lt.
Qed.

(** [sendPressure] stores the measurement only when 20 ms have passed
    since the last store, and then records the clock reading. *)
Lemma sendPressure_store now (s : Drum F) :
  let sp := sendPressure config now s in
  (fst sp = s /\ snd sp = [])
  \/ ((fst sp).(_pressure).(Pressure.usec) = now
      /\ 20 * 1000 <= getUsecSince now s.(_pressure).(Pressure.usec)).
Proof.
  unfold sendPressure.
  destruct (_ =? _); [left; auto|].
  destruct (getUsecSince now _ <? 20 * 1000) eqn:E; [left; auto|].
  apply Z.ltb_ge in E. right.
  destruct (_ =? _); [simpl; auto|].
  destruct (Pressure.enabled _); simpl; auto.
Qed.

Lemma dispatch_busy_usec now (s : Drum F) :
  let d := dispatch powf config now s in
  (fst d).(_now).(Now.state) <> State.Idle ->
  (fst d).(_pressure).(Pressure.usec) = s.(_pressure).(Pressure.usec).
Proof.
  unfold dispatch, caseIdle, caseRising, caseHit, caseHitHold,
    caseHitRelease, caseRelease.
  destruct (Now.state (_now s)); simpl;
    repeat match goal with
      | |- context [if ?b then _ else _] => destruct b; simpl
      end; intros H; auto; exfalso; apply H; reflexivity.
Qed.

(** One call of [loop] that does not return the machine to [Idle] keeps
    the time of the last store and reports nothing, or stores at its own
    reading, 20 ms or more after the last store. *)
Lemma loop_store (s : Drum F) now sample :
  let r := loop powf config s now sample in
  (fst r).(_now).(Now.state) <> State.Idle ->
  ((fst r).(_pressure).(Pressure.usec) = s.(_pressure).(Pressure.usec)
   /\ existsb nonzeroPressureRaw (snd r) = false)
  \/ ((fst r).(_pressure).(Pressure.usec) = now
      /\ 20 * 1000 <= getUsecSince now s.(_pressure).(Pressure.usec)).
Proof.
  simpl. rewrite loop_unfold.
  destruct (throttled now s); simpl; [left; auto|].
  set (m := measured powf config now sample s).
  intros Hb.
  destruct (measured_frame powf config now sample s) as (_ & _ & Mp & _).
  fold m in Mp.
  rewrite (dispatch_busy_usec now _ Hb).
  destruct (dispatch_busy powf config now _ Hb) as (_ & _ & _ & Dq).
  destruct (sendPressure_store now m) as [(E1 & E2)|(E1 & E2)].
  - left. rewrite E1 in Dq |- *. rewrite E2, Mp.
    split; [reflexivity|]. simpl.
    apply (existsb_weaken isPressureRaw); [|exact Dq].
    intros [] H; simpl in *; congruence.
  - right. rewrite Mp in E2. auto.
Qed.

Lemma reports_apart (inputs : list (Z * F)) :
  forall (s : Drum F) (t : Z),
    0 <= s.(_pressure).(Pressure.usec) <= t ->
    clockOrdered t inputs ->
    Forall (fun st => st <> State.Idle) (states powf config s inputs) ->
    apart (20 * 1000) (reports powf config s inputs)
    /\ match reports powf config s inputs with
       | [] => True
       | first :: _ => s.(_pressure).(Pressure.usec) + 20 * 1000 <= first
       end.
Proof.
  induction inputs as [|[now sample] rest IH]; intros s t Hu Hc Hb.
  { simpl. auto. }
  simpl in Hc. destruct Hc as (Hnow & Hc).
  unfold states in Hb. simpl in Hb.
  apply Forall_cons_iff in Hb. destruct Hb as (Hb1 & Hb).
  simpl reports.
  set (r := loop powf config s now sample) in *.
  assert (Hsince : getUsecSince now s.(_pressure).(Pressure.usec)
                   = now - s.(_pressure).(Pressure.usec)).
  { unfold getUsecSince, uint32_t. apply Z.mod_small. lia. }
  destruct (loop_store s now sample Hb1) as [(E & N)|(E & G)];
    fold r in E; try fold r in N.
  - rewrite N. simpl.
    destruct (IH (fst r) now) as (I1 & I2); [rewrite E; lia|exact Hc|exact Hb|].
    split; [exact I1|].
    destruct (reports powf config (fst r) rest); [exact I|].
    rewrite E in I2. exact I2.
  - rewrite Hsince in G.
    destruct (IH (fst r) now) as (I1 & I2); [rewrite E; lia|exact Hc|exact Hb|].
    rewrite E in I2.
    destruct (existsb nonzeroPressureRaw (snd r)); simpl.
    + split; [|lia].
      destruct (reports powf config (fst r) rest); [exact I|].
      split; [lia|exact I1].
    + split; [exact I1|].
      destruct (reports powf config (fst r) rest); [exact I|]. lia.
Qed.

(** While the machine stays out of [Idle], under a clock that does not
    wrap or go back, the calls that report a step are at least 20 ms
    apart, and the first of them comes at least 20 ms after the last
    store. *)
Theorem reports_rate_limited (s : Drum F) (t : Z) (inputs : list (Z * F)) :
  0 <= s.(_pressure).(Pressure.usec) <= t ->
  clockOrdered t inputs ->
  Forall (fun st => st <> State.Idle) (states powf config s inputs) ->
  apart (20 * 1000) (reports powf config s inputs)
  /\ Forall (fun first => s.(_pressure).(Pressure.usec) + 20 * 1000 <= first)
            (firstn 1 (reports powf config s inputs)).
Proof.
  intros Hu Hc Hb.
  destruct (reports_apart inputs s t Hu Hc Hb) as (H1 & H2).
  split; [exact H1|].
  destruct (reports powf config s inputs); simpl; auto.
Qed.

End Limits.

Lemma throttle_window_witness :
  final B32.powf Demo.config Demo.risen
    [ (100100, B32.of_Z 1); (100499, B32.of_Z 0) ] = Demo.risen
  /\ calls B32.powf Demo.config Demo.risen
       [ (100100, B32.of_Z 1); (100499, B32.of_Z 0) ] = [].
Proof.
  assert (Ht : throttled 100000 (@reset spec_float B32.ops) = false)
    by (vm_compute; reflexivity).
  assert (Hb : (fst (loop B32.powf Demo.config reset 100000 (B32.ratio 1 2)))
                 .(_now).(Now.state) <> State.Idle)
    by (vm_compute; discriminate).
  assert (Hall : Forall (fun i : Z * spec_float =>
                           getUsecSince (fst i) 100000 < 500)
                   [ (100100, B32.of_Z 1); (100499, B32.of_Z 0) ]).
  { repeat (apply Forall_cons; [vm_compute; reflexivity|]). apply Forall_nil. }
  exact (throttle_window B32.powf Demo.config reset 100000 (B32.ratio 1 2)
           _ Ht Hb Hall).
Defined.

Lemma reports_rate_limited_witness :
  reports B32.powf Demo.config reset (removelast Demo.inputs)
  = [100000; 160000; 180000]
  /\ apart (20 * 1000)
       (reports B32.powf Demo.config reset (removelast Demo.inputs)).
Proof.
  split; [vm_compute; reflexivity|].
  assert (Hu : 0 <= (@reset spec_float B32.ops).(_pressure).(Pressure.usec)
               <= 100000) by (vm_compute; split; discriminate).
  assert (Hc : clockOrdered 100000 (removelast Demo.inputs)).
  { vm_compute. repeat split; discriminate. }
  assert (Hb : Forall (fun st => st <> State.Idle)
                 (states B32.powf Demo.config reset
                    (removelast Demo.inputs))).
  { vm_compute. repeat (apply Forall_cons; [discriminate|]). apply Forall_nil. }
  exact (proj1 (reports_rate_limited B32.powf Demo.config reset 100000
                  (removelast Demo.inputs) Hu Hc Hb)).
Defined.

(** ** The filter *)

Section Filter.
Context {F : Type} {FO : FloatOps F}.
Variable powf : F -> F -> F.
Variable config : Config.t F.

(** The filter memory after a call of [loop]: the filtered sample, or
    what it was when the call is throttled. *)
Lemma loop_history_analog (s : Drum F) now sample :
  (fst (loop powf config s now sample)).(_history).(History.analog)
  = if throttled now s then s.(_history).(History.analog)
    else filtered config sample s.
Proof.
  rewrite loop_unfold. destruct (throttled now s); simpl; [reflexivity|].
  rewrite dispatch_history.
  assert (Hsp : forall x : Drum F,
             History.analog (_history (fst (sendPressure config now x)))
             = History.analog (_history x)).
  { intros x. unfold sendPressure.
    destruct (_ =? _); [reflexivity|].
    destruct (_ <? _); [reflexivity|].
    destruct (_ =? _); [reflexivity|].
    destruct (Pressure.enabled _); reflexivity. }
  rewrite Hsp. unfold measured, measure.
  change (filtered config sample (set_now_usec now s))
    with (filtered config sample s).
  destruct (flt _ _); [reflexivity|].
  destruct (flt _ _); reflexivity.
Qed.

End Filter.

Section FilterExact.
Local Open Scope Q_scope.
Variable powf : Q -> Q -> Q.
Variable config : Config.t Q.
Hypothesis alpha_range : 0 <= config.(Config.alpha) <= 1.

Lemma filtered_between (lo hi sample : Q) (s : Drum Q) :
  lo <= s.(_history).(History.analog) <= hi ->
  lo <= sample <= hi ->
  lo <= filtered config sample s <= hi.
Proof.
  intros Hh Ha. unfold filtered. cbn [fadd fsub fmul f_of_Z Exact.ops].
  change (inject_Z 1) with 1.
  set (a := Config.alpha config) in *.
  set (h := History.analog (_history s)) in *.
  split; nra.
Qed.

Lemma filtered_below (bound sample : Q) (s : Drum Q) :
  s.(_history).(History.analog) < bound ->
  sample < bound ->
  filtered config sample s < bound.
Proof.
  intros Hh Ha. unfold filtered. cbn [fadd fsub fmul f_of_Z Exact.ops].
  change (inject_Z 1) with 1.
  set (a := Config.alpha config) in *.
  set (h := History.analog (_history s)) in *.
  destruct (Qlt_le_dec 0 a) as [Hpos|Hzero].
  - nra.
  - assert (Ha0 : a == 0) by lra. rewrite Ha0. lra.
Qed.

Lemma run_filter_between (lo hi : Q) (inputs : list (Z * Q)) :
  forall s : Drum Q,
    lo <= s.(_history).(History.analog) <= hi ->
    Forall (fun i => lo <= snd i <= hi) inputs ->
    lo <= (final powf config s inputs).(_history).(History.analog) <= hi.
Proof.
  induction inputs as [|[now sample] rest IH]; intros s Hs Hall; [exact Hs|].
  apply Forall_cons_iff in Hall. destruct Hall as (Ha & Hall).
  rewrite final_cons. apply IH; [|exact Hall].
  rewrite loop_history_analog.
  destruct (throttled now s); [exact Hs|].
  now apply filtered_between.
Qed.

End FilterExact.

(** In exact arithmetic, with [0 <= alpha <= 1], the low-pass filter
    keeps its memory between the bounds of what it is fed: if the filter
    memory and all samples of an execution lie in [[lo, hi]], so does the
    filter memory at its end. *)
Theorem filter_stays_between
    (powf : Q -> Q -> Q) (config : Config.t Q) (lo hi : Q)
    (s : Drum Q) (inputs : list (Z * Q)) :
  (0 <= config.(Config.alpha) <= 1)%Q ->
  (lo <= s.(_history).(History.analog) <= hi)%Q ->
  Forall (fun i => lo <= snd i <= hi)%Q inputs ->
  (lo <= (final powf config s inputs).(_history).(History.analog) <= hi)%Q.
Proof.
  intros Ha Hs Hall. now apply run_filter_between.
Qed.

Lemma filter_stays_between_witness :
  (0 <= (final Exact.powf Demo.smoothQ reset Demo.inputsQ)
          .(_history).(History.analog) <= 3 # 4)%Q.
Proof.
  assert (Ha : (0 <= Demo.smoothQ.(Config.alpha) <= 1)%Q)
    by (vm_compute; split; discriminate).
  assert (Hs : (0 <= (@reset Q Exact.ops).(_history).(History.analog)
                <= 3 # 4)%Q) by (vm_compute; split; discriminate).
  assert (Hall : Forall (fun i : Z * Q => 0 <= snd i <= 3 # 4)%Q
                   Demo.inputsQ).
  { vm_compute.
    repeat (apply Forall_cons; [split; discriminate|]). apply Forall_nil. }
  exact (filter_stays_between Exact.powf Demo.smoothQ 0 (3 # 4) reset
           Demo.inputsQ Ha Hs Hall).
Defined.

(** ** The arguments of the pressure calls *)

Section Arguments.
Local Open Scope Q_scope.
Variable powf : Q -> Q -> Q.
Variable config : Config.t Q.
Hypothesis nSteps_range : (1 <= config.(Config.nSteps) < 2 ^ 16)%Z.
Hypothesis pressure_range :
  config.(Config.pressure_min) < config.(Config.pressure_max).
Hypothesis exponent_nonneg : 0 <= config.(Config.pressure_exponent).
Hypothesis powf_unit :
  forall x e, 0 <= e -> 0 <= x <= 1 -> 0 <= powf x e <= 1.

Lemma measure_fraction sample (s : Drum Q) :
  0 <= (measure powf config sample s).(_now).(Now.fraction) <= 1.
Proof.
  unfold measure. set (h := filtered config sample s).
  cbn [flt fle Exact.ops].
  destruct (Exact.ltb h (Config.pressure_min config)) eqn:E1.
  { simpl. unfold inject_Z. lra. }
  destruct (Exact.ltb (Config.pressure_max config) h) eqn:E2.
  { simpl. unfold inject_Z. lra. }
  simpl. apply (normalized_unit powf config pressure_range exponent_nonneg
                  powf_unit).
  apply exact_ltb_false in E1, E2. auto.
Qed.

Lemma measured_inRange now sample (s : Drum Q) :
  stepsInRange config s ->
  measurementInRange config (measured powf config now sample s).
Proof.
  intros Hs. split.
  - apply measure_fraction.
  - apply (measure_steps powf config nSteps_range pressure_range
             exponent_nonneg powf_unit).
    exact Hs.
Qed.

Lemma sendPressure_arguments now (s : Drum Q) :
  measurementInRange config s ->
  Forall (argumentsInRange config) (snd (sendPressure config now s)).
Proof.
  intros ((Hf1 & Hf2) & (Hn1 & Hn2) & _).
  destruct (sendPressure_outcome config now s); repeat constructor; auto.
Qed.

Lemma dispatch_arguments now (s : Drum Q) :
  Forall (argumentsInRange config) (snd (dispatch powf config now s)).
Proof.
  unfold dispatch, caseIdle, caseRising, caseHit, caseHitHold,
    caseHitRelease, caseRelease, terminalZeros.
  cbn [f_of_Z Exact.ops].
  destruct (Now.state (_now s)); simpl;
    repeat match goal with
      | |- context [if ?b then _ else _] => destruct b; simpl
      end;
    repeat (first [apply Forall_nil | apply Forall_cons]);
    simpl; try exact I;
    (unfold inject_Z; split; [lra|lia]).
Qed.

Lemma loop_arguments (s : Drum Q) now sample :
  stepsInRange config s ->
  Forall (argumentsInRange config) (snd (loop powf config s now sample)).
Proof.
  intros Hs. rewrite loop_unfold.
  destruct (throttled now s); simpl; [constructor|].
  apply Forall_app. split.
  - apply sendPressure_arguments. now apply measured_inRange.
  - apply dispatch_arguments.
Qed.

End Arguments.

(** In exact arithmetic, under the conditions of the step range
    ([1 <= nSteps], [pressure.min < pressure.max], a curve exponent
    [pressure.exponent >= 0] for which [powf] keeps the unit interval),
    every [handlePressure] and [handlePressureRaw] call of an execution
    from a reachable state carries a fraction of [[0, 1]] and a step of
    [[0, nSteps - 1]]. *)
Theorem pressure_arguments_in_range
    (powf : Q -> Q -> Q) (config : Config.t Q)
    (s : Drum Q) (inputs : list (Z * Q)) :
  1 <= config.(Config.nSteps) < 2 ^ 16 ->
  (config.(Config.pressure_min) < config.(Config.pressure_max))%Q ->
  (0 <= config.(Config.pressure_exponent))%Q ->
  (forall x e, 0 <= e -> 0 <= x <= 1 -> 0 <= powf x e <= 1)%Q ->
  reachable powf config s ->
  Forall (argumentsInRange config) (calls powf config s inputs).
Proof.
  intros Hn Hp He Hpow Hr.
  pose proof (reachable_steps powf config Hn Hp He Hpow s Hr) as Hs.
  clear Hr. revert s Hs.
  induction inputs as [|[now sample] rest IH]; intros s Hs; [constructor|].
  unfold calls. simpl. apply Forall_app. split.
  - now apply loop_arguments.
  - apply IH. now apply loop_steps.
Qed.

Lemma pressure_arguments_in_range_witness :
  length (calls Exact.powf Demo.configQ reset Demo.inputsQ) = 8%nat
  /\ Forall (argumentsInRange Demo.configQ)
            (calls Exact.powf Demo.configQ reset Demo.inputsQ).
Proof.
  split; [vm_compute; reflexivity|].
  assert (Hn : 1 <= Demo.configQ.(Config.nSteps) < 2 ^ 16)
    by (vm_compute; split; [discriminate|reflexivity]).
  assert (Hp : (Demo.configQ.(Config.pressure_min)
                < Demo.configQ.(Config.pressure_max))%Q)
    by (vm_compute; reflexivity).
  assert (He : (0 <= Demo.configQ.(Config.pressure_exponent))%Q)
    by (vm_compute; discriminate).
  exact (pressure_arguments_in_range Exact.powf Demo.configQ reset
           Demo.inputsQ Hn Hp He exact_powf_unit (reachable_reset _ _)).
Defined.

(** ** Nothing pressed, nothing called *)

Section Quiet.
Local Open Scope Q_scope.
Variable powf : Q -> Q -> Q.
Variable config : Config.t Q.
Hypothesis alpha_range : 0 <= config.(Config.alpha) <= 1.

Lemma loop_quiet (s : Drum Q) now sample :
  quiet config s ->
  sample < config.(Config.pressure_min) ->
  quiet config (fst (loop powf config s now sample))
  /\ snd (loop powf config s now sample) = [].
Proof.
  intros (Hi & Hp & Hh) Ha. rewrite loop_unfold.
  destruct (throttled now s); simpl; [repeat split; auto|].
  set (m := measured powf config now sample s).
  pose proof (filtered_below config alpha_range _ sample s Hh Ha) as Hf.
  assert (E : Exact.ltb (filtered config sample s)
                (Config.pressure_min config) = true)
    by now apply exact_ltb_true.
  assert (Hm : m = mkDrum (Now.mk s.(_now).(Now.state) now sample
                             (inject_Z 0) 0)
                     (History.mk (filtered config sample s)
                        (inject_Z 0 - config.(Config.lag)))
                     s.(_pressure) s.(_rising) s.(_hit) s.(_falling)).
  { unfold m, measured, measure.
    change (filtered config sample (set_now_usec now s))
      with (filtered config sample s).
    cbn [flt Exact.ops]. rewrite E. reflexivity. }
  assert (Hsp : sendPressure config now m = (m, [])).
  { unfold sendPressure. rewrite Hm. simpl. rewrite Hp. reflexivity. }
  rewrite Hsp. simpl.
  unfold dispatch. rewrite Hm. simpl. rewrite Hi. unfold caseIdle. simpl.
  repeat split; auto.
Qed.

Lemma run_quiet (inputs : list (Z * Q)) :
  forall s : Drum Q,
    quiet config s ->
    Forall (fun i => snd i < config.(Config.pressure_min)) inputs ->
    calls powf config s inputs = []
    /\ Forall (fun st => st = State.Idle) (states powf config s inputs).
Proof.
  induction inputs as [|[now sample] rest IH]; intros s Hq Hall.
  { split; [reflexivity|constructor]. }
  apply Forall_cons_iff in Hall. destruct Hall as (Ha & Hall).
  destruct (loop_quiet s now sample Hq Ha) as (Hq' & He).
  destruct (IH _ Hq' Hall) as (I1 & I2).
  unfold calls, states in *. simpl. rewrite He, I1.
  split; [reflexivity|]. constructor; [apply Hq'|exact I2].
Qed.

End Quiet.

(** In exact arithmetic, with [0 <= alpha <= 1] and [pressure.min > 0],
    samples below [pressure.min] never wake the machine: from the
    constructed state it stays in [Idle] and makes no call, however many
    samples it is given and whatever the clock reads. *)
Theorem below_threshold_nothing_happens
    (powf : Q -> Q -> Q) (config : Config.t Q) (inputs : list (Z * Q)) :
  (0 <= config.(Config.alpha) <= 1)%Q ->
  (0 < config.(Config.pressure_min))%Q ->
  Forall (fun i => snd i < config.(Config.pressure_min))%Q inputs ->
  calls powf config reset inputs = []
  /\ Forall (fun st => st = State.Idle) (states powf config reset inputs).
Proof.
  intros Ha Hp Hall. apply run_quiet; [exact Ha| |exact Hall].
  repeat split; auto.
Qed.

Lemma below_threshold_nothing_happens_witness :
  calls Exact.powf Demo.smoothQ reset Demo.faintQ = [].
Proof.
  assert (Ha : (0 <= Demo.smoothQ.(Config.alpha) <= 1)%Q)
    by (vm_compute; split; discriminate).
  assert (Hp : (0 < Demo.smoothQ.(Config.pressure_min))%Q)
    by (vm_compute; reflexivity).
  assert (Hall : Forall (fun i : Z * Q =>
                           snd i < Demo.smoothQ.(Config.pressure_min))%Q
                   Demo.faintQ).
  { repeat (apply Forall_cons; [vm_compute; reflexivity|]). apply Forall_nil. }
  exact (proj1 (below_threshold_nothing_happens Exact.powf Demo.smoothQ _
                  Ha Hp Hall)).
Defined.

(** ** The falling step *)

Section Falling.
Context {F : Type} {FO : FloatOps F}.
Variable powf : F -> F -> F.
Variable config : Config.t F.

Lemma dispatch_falling_step now (s : Drum F) :
  s.(_falling).(Falling.step)
  <= (fst (dispatch powf config now s)).(_falling).(Falling.step).
Proof.
  unfold dispatch, caseIdle, caseRising, caseHit, caseHitHold,
    caseHitRelease, caseRelease.
  destruct (Now.state (_now s)); simpl;
    repeat match goal with
      | |- context [if ?b then _ else _] => destruct b eqn:?; simpl
      end; try lia;
    repeat match goal with
      | H : (_ <=? _) = true |- _ => apply Z.leb_le in H; simpl in H
      end; lia.
Qed.

Lemma loop_falling_step (s : Drum F) now sample :
  s.(_falling).(Falling.step)
  <= (fst (loop powf config s now sample)).(_falling).(Falling.step).
Proof.
  rewrite loop_unfold. destruct (throttled now s); simpl; [lia|].
  set (m := measured powf config now sample s).
  destruct (measured_frame powf config now sample s)
    as (_ & _ & _ & _ & _ & Mf).
  destruct (sendPressure_frame config now m) as (_ & _ & _ & Sf & _).
  fold m in Mf. rewrite <- Mf, <- Sf. apply dispatch_falling_step.
Qed.

(** No call of [loop] lowers [_falling.step], not even the one that ends
    a cycle, which clears [_now], [_rising], [_hit] and [_pressure] but
    not [_falling]: over any execution it never decreases, and so it is
    carried from one cycle into the next. *)
Theorem falling_step_never_decreases (s : Drum F) (inputs : list (Z * F)) :
  s.(_falling).(Falling.step)
  <= (final powf config s inputs).(_falling).(Falling.step).
Proof.
  revert s. induction inputs as [|[now sample] rest IH]; intros s.
  - unfold final. simpl. lia.
  - rewrite final_cons.
    eapply Z.le_trans; [apply (loop_falling_step s now sample)|apply IH].
Qed.

End Falling.

(** ** A rise that is too slow *)

Section SlowRise.
Context {F : Type} {FO : FloatOps F}.
Variable powf : F -> F -> F.
Variable config : Config.t F.

Lemma rising_slow (s : Drum F) now sample :
  let m := measured powf config now sample s in
  s.(_now).(Now.state) = State.Rising ->
  throttled now s = false ->
  m.(_now).(Now.step) <> 0 ->
  config.(Config.hit_risingUsec)
    <= getUsecSince now s.(_rising).(Rising.usec) ->
  fle (greater s.(_rising).(Rising.pressure) m.(_now).(Now.fraction))
      config.(Config.hit_min) = true ->
  let r := loop powf config s now sample in
  (fst r).(_now).(Now.state) = State.Release
  /\ (fst r).(_pressure).(Pressure.enabled) = true
  /\ existsb isHit (snd r) = false.
Proof.
  intros m Hs Ht Hz Hu Hp. simpl. rewrite loop_unfold, Ht. simpl. fold m.
  pose proof (dispatch_state powf config s now sample) as Hst. fold m in Hst.
  destruct (sendPressure_frame config now m) as (Sn & Sr & _).
  destruct (measured_frame powf config now sample s) as (_ & _ & _ & Mr & _).
  fold m in Mr.
  destruct (sendPressure_flags config now m) as (_ & _ & _ & Hh & _).
  unfold dispatch. rewrite Hst, Hs. unfold caseRising.
  rewrite Sn, Sr, Mr.
  apply Z.eqb_neq in Hz. rewrite Hz. apply Z.ltb_ge in Hu. rewrite Hu.
  unfold greater in Hp. simpl. rewrite Hp. simpl.
  rewrite existsb_app, Hh. auto.
Qed.

(** When the rising window ends with a peak that is not above [hit.min],
    the rise is no hit: the machine goes to [Release] with the confirmed
    pressure calls enabled, and [handleHit] is not called for the rest of
    the cycle. *)
Theorem slow_rise_is_no_hit (s : Drum F) now sample (inputs : list (Z * F)) :
  let m := measured powf config now sample s in
  s.(_now).(Now.state) = State.Rising ->
  throttled now s = false ->
  m.(_now).(Now.step) <> 0 ->
  config.(Config.hit_risingUsec)
    <= getUsecSince now s.(_rising).(Rising.usec) ->
  fle (greater s.(_rising).(Rising.pressure) m.(_now).(Now.fraction))
      config.(Config.hit_min) = true ->
  let r := loop powf config s now sample in
  (fst r).(_now).(Now.state) = State.Release
  /\ (fst r).(_pressure).(Pressure.enabled) = true
  /\ existsb isHit
       (snd r ++ callsOf (cycle (run powf config (fst r) inputs))) = false.
Proof.
  intros m Hs Ht Hz Hu Hp r.
  destruct (rising_slow s now sample Hs Ht Hz Hu Hp) as (H1 & H2 & H3).
  fold r in H1, H2, H3.
  destruct (cycle_release powf config inputs (fst r) H1) as (H4 & _).
  split; [exact H1|]. split; [exact H2|].
  now rewrite existsb_app, H3, H4.
Qed.

End SlowRise.

Lemma slow_rise_is_no_hit_witness :
  (fst (loop B32.powf Demo.config Demo.creeping 102000 (B32.ratio 1 16)))
    .(_now).(Now.state) = State.Release
  /\ existsb isPressure
       (callsOf (cycle (run B32.powf Demo.config
                          (fst (loop B32.powf Demo.config Demo.creeping
                                  102000 (B32.ratio 1 16)))
                          [ (130000, B32.ratio 1 8) ]))) = true
  /\ existsb isHit
       (snd (loop B32.powf Demo.config Demo.creeping 102000 (B32.ratio 1 16))
        ++ callsOf (cycle (run B32.powf Demo.config
                             (fst (loop B32.powf Demo.config Demo.creeping
                                     102000 (B32.ratio 1 16)))
                             [ (130000, B32.ratio 1 8) ]))) = false.
Proof.
  assert (Hs : Demo.creeping.(_now).(Now.state) = State.Rising)
    by (vm_compute; reflexivity).
  assert (Ht : throttled 102000 Demo.creeping = false)
    by (vm_compute; reflexivity).
  assert (Hz : (measured B32.powf Demo.config 102000 (B32.ratio 1 16)
                  Demo.creeping).(_now).(Now.step) <> 0)
    by (vm_compute; discriminate).
  assert (Hu : Demo.config.(Config.hit_risingUsec)
               <= getUsecSince 102000 Demo.creeping.(_rising).(Rising.usec))
    by (vm_compute; discriminate).
  assert (Hp : fle (greater Demo.creeping.(_rising).(Rising.pressure)
                      (measured B32.powf Demo.config 102000 (B32.ratio 1 16)
                         Demo.creeping).(_now).(Now.fraction))
                   Demo.config.(Config.hit_min) = true)
    by (vm_compute; reflexivity).
  destruct (slow_rise_is_no_hit B32.powf Demo.config Demo.creeping 102000
              (B32.ratio 1 16) [ (130000, B32.ratio 1 8) ] Hs Ht Hz Hu Hp)
    as (H1 & _ & H3).
  split; [exact H1|]. split; [vm_compute; reflexivity|exact H3].
Defined.

(** ** Decisions are timed *)

Section TimedDecisions.
Context {F : Type} {FO : FloatOps F}.
Variable powf : F -> F -> F.
Variable config : Config.t F.

Lemma dispatch_timed now (s : Drum F) :
  s.(_now).(Now.usec) = now ->
  timed config (fst (dispatch powf config now s)).
Proof.
  intros Hu.
  unfold timed, dispatch, caseIdle, caseRising, caseHit, caseHitHold,
    caseHitRelease, caseRelease.
  destruct (Now.state (_now s)) eqn:Hs; simpl;
    repeat match goal with
      | |- context [if ?b then _ else _] => destruct b eqn:?; simpl
      end; rewrite ?Hs; simpl; auto;
    repeat match goal with
      | H : (_ <? _) = false |- _ => apply Z.ltb_ge in H; simpl in H
      | H : (_ =? _) = true |- _ => apply Z.eqb_eq in H; simpl in H
      end; rewrite ?Hu; auto.
Qed.

Lemma loop_timed (s : Drum F) now sample :
  timed config s -> timed config (fst (loop powf config s now sample)).
Proof.
  intros Hs. rewrite loop_unfold.
  destruct (throttled now s); simpl; [exact Hs|].
  apply dispatch_timed.
  destruct (sendPressure_frame config now
              (measured powf config now sample s)) as (Sn & _).
  rewrite Sn. apply (measured_frame powf config now sample s).
Qed.


End TimedDecisions.


(** ** The release velocity falls with the duration *)

Section ReleaseOrder.
Local Open Scope Q_scope.
Variable config : Config.t Q.
Variables lo hi : Z.
Hypothesis minUsec_whole : config.(Config.release_minUsec) = inject_Z lo.
Hypothesis maxUsec_whole : config.(Config.release_maxUsec) = inject_Z hi.
Hypothesis bounds : (0 <= lo < hi)%Z.
Hypothesis maxUsec_range : (hi < 2 ^ 32)%Z.

Lemma releaseValue_antitone (d1 d2 : Z) :
  (d1 <= d2)%Z -> releaseValue config d2 <= releaseValue config d1.
Proof.
  intros Hd.
  rewrite !(releaseValue_exact config lo hi minUsec_whole maxUsec_whole
              bounds maxUsec_range).
  set (c1 := Z.max lo (Z.min d1 hi)). set (c2 := Z.max lo (Z.min d2 hi)).
  assert (Hc : (c1 <= c2)%Z) by (unfold c1, c2; lia).
  rewrite Zle_Qle in Hc.
  assert (Hr : 0 < inject_Z hi - inject_Z lo).
  { destruct bounds as (_ & Hb). rewrite Zlt_Qlt in Hb. lra. }
  assert (Hq : (inject_Z c1 - inject_Z lo) / (inject_Z hi - inject_Z lo)
               <= (inject_Z c2 - inject_Z lo) / (inject_Z hi - inject_Z lo)).
  { unfold Qdiv. apply Qmult_le_compat_r; [lra|].
    apply Qlt_le_weak. now apply Qinv_lt_0_compat. }
  lra.
Qed.

Lemma releaseVelocity_floor (d : Z) :
  releaseVelocity config d = Qfloor (releaseValue config d).
Proof.
  destruct (releaseVelocity_exact config lo hi minUsec_whole maxUsec_whole
              bounds maxUsec_range d) as (Hv & _).
  rewrite Hv. apply Qfloor_comp. symmetry.
  apply (releaseValue_exact config lo hi minUsec_whole maxUsec_whole
           bounds maxUsec_range).
Qed.

Lemma releaseVelocity_long (d : Z) :
  (hi <= d)%Z -> releaseVelocity config d = 1%Z.
Proof.
  intros Hd.
  destruct (releaseVelocity_exact config lo hi minUsec_whole maxUsec_whole
              bounds maxUsec_range d) as (Hv & _).
  rewrite Hv. replace (Z.max lo (Z.min d hi)) with hi by lia.
  assert (Hr : ~ inject_Z hi - inject_Z lo == 0).
  { destruct bounds as (_ & Hb). rewrite Zlt_Qlt in Hb. lra. }
  assert (E : 127 - 126 * ((inject_Z hi - inject_Z lo)
                           / (inject_Z hi - inject_Z lo)) == 1)
    by (field; exact Hr).
  rewrite (Qfloor_comp _ _ E). reflexivity.
Qed.

End ReleaseOrder.

(** In exact arithmetic, for a release range of whole numbers of
    microseconds, the release velocity never rises with the duration of
    the fall: a longer fall gives a velocity that is no greater, and a
    fall of [release.maxUsec] or more gives velocity 1. *)
Theorem release_velocity_antitone
    (config : Config.t Q) (lo hi d1 d2 : Z) :
  config.(Config.release_minUsec) = inject_Z lo ->
  config.(Config.release_maxUsec) = inject_Z hi ->
  0 <= lo < hi ->
  hi < 2 ^ 32 ->
  d1 <= d2 ->
  releaseVelocity config d2 <= releaseVelocity config d1
  /\ (hi <= d2 -> releaseVelocity config d2 = 1).
Proof.
  intros Hlo Hhi Hb Hr Hd. split.
  - rewrite !(releaseVelocity_floor config lo hi Hlo Hhi Hb Hr).
    apply Qfloor_resp_le.
    now apply (releaseValue_antitone config lo hi Hlo Hhi Hb Hr).
  - now apply (releaseVelocity_long config lo hi Hlo Hhi Hb Hr).
Qed.

Lemma release_velocity_antitone_witness :
  releaseVelocity Demo.configQ 27500 <= releaseVelocity Demo.configQ 6000
  /\ releaseVelocity Demo.configQ 60000 = 1.
Proof.
  assert (Hb : 0 <= 5000 < 50000) by lia.
  assert (Hr : 50000 < 2 ^ 32) by reflexivity.
  assert (Hd : 6000 <= 27500) by lia.
  assert (Hd' : 27500 <= 60000) by lia.
  split.
  - exact (proj1 (release_velocity_antitone Demo.configQ 5000 50000
                    6000 27500 eq_refl eq_refl Hb Hr Hd)).
  - apply (proj2 (release_velocity_antitone Demo.configQ 5000 50000
                    27500 60000 eq_refl eq_refl Hb Hr Hd')).
    lia.
Defined.

(** ** The step response of the filter *)

Section StepResponse.
Local Open Scope Q_scope.
Variable powf : Q -> Q -> Q.
Variable config : Config.t Q.

Lemma filtered_towards (c sample : Q) (s : Drum Q) :
  sample == c ->
  filtered config sample s - c
  == (s.(_history).(History.analog) - c) * (1 - config.(Config.alpha)).
Proof.
  intros Ha. unfold filtered. cbn [fadd fsub fmul f_of_Z Exact.ops].
  change (inject_Z 1) with 1. rewrite Ha. ring.
Qed.

Lemma power_succ (q : Q) (n : nat) :
  q ^ Z.of_nat (S n) == q * q ^ Z.of_nat n.
Proof.
  rewrite Nat2Z.inj_succ. unfold Z.succ.
  rewrite Z.add_comm, Qpower_plus' by lia.
  now rewrite Qpower_1_r.
Qed.

Lemma run_step_response (c : Q) (inputs : list (Z * Q)) :
  forall s : Drum Q,
    Forall (fun i => snd i == c) inputs ->
    (final powf config s inputs).(_history).(History.analog) - c
    == (s.(_history).(History.analog) - c)
       * (1 - config.(Config.alpha))
         ^ Z.of_nat (processed powf config s inputs).
Proof.
  induction inputs as [|[now sample] rest IH]; intros s Hall.
  { simpl. unfold final. simpl. ring. }
  apply Forall_cons_iff in Hall. destruct Hall as (Ha & Hall). simpl in Ha.
  rewrite final_cons, (IH _ Hall). simpl processed.
  rewrite loop_history_analog.
  destruct (throttled now s).
  - reflexivity.
  - rewrite (filtered_towards c sample s Ha).
    change (1 + processed powf config
                  (fst (loop powf config s now sample)) rest)%nat
      with (S (processed powf config
                 (fst (loop powf config s now sample)) rest)).
    rewrite power_succ. ring.
Qed.

End StepResponse.

(** In exact arithmetic the low-pass filter has the step response of a
    single pole: while the sample is held at [c], each call of [loop]
    that is not throttled multiplies the distance of the filter memory
    from [c] by [1 - alpha], so after [n] such calls the memory is
    [c + (h - c) * (1 - alpha)^n], where [h] is what it was. *)
Theorem filter_step_response
    (powf : Q -> Q -> Q) (config : Config.t Q) (c : Q)
    (s : Drum Q) (inputs : list (Z * Q)) :
  Forall (fun i => snd i == c)%Q inputs ->
  ((final powf config s inputs).(_history).(History.analog)
   == c + (s.(_history).(History.analog) - c)
          * (1 - config.(Config.alpha))
            ^ Z.of_nat (processed powf config s inputs))%Q.
Proof.
  intros Hall.
  pose proof (run_step_response powf config c inputs s Hall) as H.
  lra.
Qed.

Lemma filter_step_response_witness :
  processed Exact.powf Demo.smoothQ reset Demo.heldQ = 3%nat
  /\ ((final Exact.powf Demo.smoothQ reset Demo.heldQ)
        .(_history).(History.analog) == 37 # 64)%Q.
Proof.
  split; [vm_compute; reflexivity|].
  assert (Hall : Forall (fun i : Z * Q => snd i == 1)%Q Demo.heldQ).
  { repeat (apply Forall_cons; [vm_compute; reflexivity|]). apply Forall_nil. }
  rewrite (filter_step_response Exact.powf Demo.smoothQ 1 reset Demo.heldQ
             Hall).
  vm_compute. reflexivity.
Defined.

(** ** A harder strike is no softer hit *)

Section HitOrder.
Local Open Scope Q_scope.
Variable powf : Q -> Q -> Q.
Variable config : Config.t Q.
Hypothesis hit_range : config.(Config.hit_min) < config.(Config.hit_max).
Hypothesis exponent_nonneg : 0 <= config.(Config.hit_exponent).
Hypothesis nSteps_range : (1 <= config.(Config.nSteps) <= 256)%Z.
Hypothesis powf_unit :
  forall x e, 0 <= e -> 0 <= x <= 1 -> 0 <= powf x e <= 1.
Hypothesis powf_monotone :
  forall x y e, 0 <= e -> 0 <= x <= y -> y <= 1 -> powf x e <= powf y e.

Lemma hitFraction_unit (peak : Q) :
  config.(Config.hit_min) <= peak ->
  0 <= hitFraction powf config peak <= 1.
Proof.
  intros Hp. unfold hitFraction, hitPeak. cbn [flt fsub fdiv Exact.ops].
  apply powf_unit; [exact exponent_nonneg|].
  apply exact_unit_quotient; [|lra].
  destruct (Exact.ltb (Config.hit_max config) peak) eqn:E.
  - lra.
  - apply exact_ltb_false in E. lra.
Qed.

Lemma hitFraction_monotone (p1 p2 : Q) :
  config.(Config.hit_min) <= p1 -> p1 <= p2 ->
  hitFraction powf config p1 <= hitFraction powf config p2.
Proof.
  intros H1 H12. unfold hitFraction, hitPeak. cbn [flt fsub fdiv Exact.ops].
  assert (Hr : 0 < config.(Config.hit_max) - config.(Config.hit_min)) by lra.
  set (c1 := if Exact.ltb (Config.hit_max config) p1
             then Config.hit_max config else p1).
  set (c2 := if Exact.ltb (Config.hit_max config) p2
             then Config.hit_max config else p2).
  assert (Hc : config.(Config.hit_min) <= c1 /\ c1 <= c2
               /\ c2 <= config.(Config.hit_max)).
  { unfold c1, c2.
    destruct (Exact.ltb (Config.hit_max config) p1) eqn:E1;
      destruct (Exact.ltb (Config.hit_max config) p2) eqn:E2;
      try apply exact_ltb_true in E1; try apply exact_ltb_true in E2;
      try apply exact_ltb_false in E1; try apply exact_ltb_false in E2;
      repeat split; lra. }
  destruct Hc as (Hc1 & Hc12 & Hc2).
  apply powf_monotone; [exact exponent_nonneg| |].
  - split.
    + apply exact_unit_quotient; lra.
    + unfold Qdiv. apply Qmult_le_compat_r; [lra|].
      apply Qlt_le_weak. now apply Qinv_lt_0_compat.
  - apply exact_unit_quotient; lra.
Qed.

Lemma hitVelocity_ceiling (peak : Q) :
  config.(Config.hit_min) <= peak ->
  hitVelocity powf config peak
  = Qceiling (hitFraction powf config peak
              * inject_Z (config.(Config.nSteps) - 1)).
Proof.
  intros Hp. pose proof (hitFraction_unit peak Hp) as Hf.
  assert (Hn : 0 <= inject_Z (config.(Config.nSteps) - 1)).
  { change 0 with (inject_Z 0). rewrite <- Zle_Qle. lia. }
  pose proof (exact_unit_product _ _ Hf Hn) as Hy.
  unfold hitVelocity, hitCeil. cbn [fmul f_of_Z f_to_Z ceilf Exact.ops].
  unfold Exact.ceil. rewrite exact_to_Z_inject.
  unfold uint8_t. apply Z.mod_small. split.
  - assert (H : (Qceiling 0 <= Qceiling (hitFraction powf config peak
                                         * inject_Z (Config.nSteps config - 1)))%Z)
      by (apply Qceiling_resp_le; apply Hy).
    exact H.
  - assert (H : (Qceiling (hitFraction powf config peak
                           * inject_Z (Config.nSteps config - 1))
                 <= Qceiling (inject_Z (Config.nSteps config - 1)))%Z)
      by (apply Qceiling_resp_le; apply Hy).
    rewrite Qceiling_Z in H. lia.
Qed.

End HitOrder.

Section PowerOrder.
Local Open Scope Q_scope.

Lemma exact_product_monotone (a b c d : Q) :
  0 <= a <= b -> 0 <= c <= d -> a * c <= b * d.
Proof. intros Hab Hcd. nra. Qed.

Lemma exact_power_positive_monotone (x y : Q) (p : positive) :
  0 <= x <= y -> Qpower_positive x p <= Qpower_positive y p.
Proof.
  intros Hxy.
  assert (Hx : forall q, 0 <= Qpower_positive x q)
    by (intros q; apply Qpower_pos_positive; apply Hxy).
  induction p as [p IH|p IH|]; simpl.
  - apply exact_product_monotone; [exact Hxy|]. split.
    + apply Qmult_le_0_compat; apply Hx.
    + apply exact_product_monotone; split; auto.
  - apply exact_product_monotone; split; auto.
  - apply Hxy.
Qed.

Lemma exact_powf_monotone (x y e : Q) :
  0 <= e -> 0 <= x <= y -> y <= 1 -> Exact.powf x e <= Exact.powf y e.
Proof.
  intros He Hxy _. unfold Exact.powf.
  assert (Hf : (Qfloor 0 <= Qfloor e)%Z) by now apply Qfloor_resp_le.
  change (Qfloor 0) with 0%Z in Hf.
  destruct (Qfloor e) as [|p|p]; simpl.
  - lra.
  - now apply exact_power_positive_monotone.
  - lia.
Qed.

End PowerOrder.

(** In exact arithmetic, for [hit.min < hit.max], at most 256 steps and a
    curve [powf(., hit.exponent)] that keeps the unit interval and its
    order, the hit velocity does not fall when the peak rises: of two
    peaks at or above [hit.min] the greater gives a velocity that is no
    smaller, and every peak at or above [hit.max] gives the same. *)
Theorem hit_velocity_monotone
    (powf : Q -> Q -> Q) (config : Config.t Q) (p1 p2 : Q) :
  (config.(Config.hit_min) < config.(Config.hit_max))%Q ->
  (0 <= config.(Config.hit_exponent))%Q ->
  1 <= config.(Config.nSteps) <= 256 ->
  (forall x e, 0 <= e -> 0 <= x <= 1 -> 0 <= powf x e <= 1)%Q ->
  (forall x y e, 0 <= e -> 0 <= x <= y -> y <= 1 -> powf x e <= powf y e)%Q ->
  (config.(Config.hit_min) <= p1)%Q ->
  (p1 <= p2)%Q ->
  hitVelocity powf config p1 <= hitVelocity powf config p2
  /\ ((config.(Config.hit_max) <= p1)%Q ->
      hitVelocity powf config p1 = hitVelocity powf config p2).
Proof.
  intros Hr He Hn Hu Hm H1 H12.
  assert (H2 : (config.(Config.hit_min) <= p2)%Q) by lra.
  pose proof (hitFraction_monotone powf config Hr He Hm p1 p2 H1 H12) as Hf.
  assert (Hs : (0 <= inject_Z (config.(Config.nSteps) - 1))%Q).
  { change 0%Q with (inject_Z 0). rewrite <- Zle_Qle. lia. }
  assert (Hle : hitVelocity powf config p1 <= hitVelocity powf config p2).
  { rewrite !(hitVelocity_ceiling powf config Hr He Hn Hu) by assumption.
    apply Qceiling_resp_le. now apply Qmult_le_compat_r. }
  split; [exact Hle|].
  intros Hmax.
  assert (Hge : hitVelocity powf config p2 <= hitVelocity powf config p1).
  { rewrite !(hitVelocity_ceiling powf config Hr He Hn Hu) by assumption.
    apply Qceiling_resp_le. apply Qmult_le_compat_r; [|exact Hs].
    pose proof (hitFraction_monotone powf config Hr He Hm
                  config.(Config.hit_max) p1 ltac:(lra) Hmax) as Ha.
    assert (Hb : (hitFraction powf config p2
                  <= hitFraction powf config config.(Config.hit_max))%Q).
    { unfold hitFraction, hitPeak. cbn [flt fsub fdiv Exact.ops].
      destruct (Exact.ltb (Config.hit_max config) p2) eqn:E2;
        destruct (Exact.ltb (Config.hit_max config) (Config.hit_max config))
          eqn:E3;
        try (apply exact_ltb_true in E3; lra);
        try (apply Qle_refl).
      apply exact_ltb_false in E2.
      assert (Hp2 : (p2 == config.(Config.hit_max))%Q) by lra.
      apply Hm; [exact He| |].
      - split.
        + apply exact_unit_quotient; lra.
        + unfold Qdiv. apply Qmult_le_compat_r; [lra|].
          apply Qlt_le_weak. apply Qinv_lt_0_compat. lra.
      - apply exact_unit_quotient; lra. }
    lra. }
  lia.
Qed.

Lemma hit_velocity_monotone_witness :
  hitVelocity Exact.powf Demo.configQ (1 # 2)
  <= hitVelocity Exact.powf Demo.configQ (3 # 4)
  /\ hitVelocity Exact.powf Demo.configQ (3 # 4) = 104.
Proof.
  split; [|vm_compute; reflexivity].
  assert (Hr : (Demo.configQ.(Config.hit_min)
                < Demo.configQ.(Config.hit_max))%Q)
    by (vm_compute; reflexivity).
  assert (He : (0 <= Demo.configQ.(Config.hit_exponent))%Q)
    by (vm_compute; discriminate).
  assert (Hn : 1 <= Demo.configQ.(Config.nSteps) <= 256)
    by (vm_compute; split; discriminate).
  assert (H1 : (Demo.configQ.(Config.hit_min) <= 1 # 2)%Q)
    by (vm_compute; discriminate).
  assert (H12 : (1 # 2 <= 3 # 4)%Q) by (vm_compute; discriminate).
  exact (proj1 (hit_velocity_monotone Exact.powf Demo.configQ (1 # 2) (3 # 4)
                  Hr He Hn exact_powf_unit exact_powf_monotone H1 H12)).
Defined.
